(** * VersionDownloadChart: the data core of the version adoption chart

    A shallow embedding of the pure data functions of
    [src/VersionDownloadChart.tsx]: [transformToPercentage], [filterTopN],
    [calculateDateTicks] with [fromDayStart], and the loop of the component
    that regroups the flat point list into one row per date.

    Conventions of the embedding.
    - Timestamps are integers ([Z], milliseconds since the epoch) inside the
      range a JavaScript [Date] accepts.
    - A JavaScript number that holds a count is a [number]: an exact rational,
      one of the two infinities, or NaN.  Rounding, overflow and the sign of
      zero are not modelled; every division of this file has a denominator
      built by [0 + c1 + ... + ck], which is never the negative zero.
    - [new Date(d).setHours(0, 0, 0, 0)], the start of the local day of [d],
      depends on the time zone of the host; it is a parameter [startOfDay]
      of the functions that use it, and [utcStartOfDay] is its instance for a
      host running in UTC.
    - The record of counts of a row is a plain object; [versionCounts] holds
      its own properties.  The one name an assignment does not store is
      [__proto__], see [assignCount]. *)

From Stdlib Require Import ZArith QArith String DecimalString DecimalPos DecimalFacts.
From stdpp Require Import gmap strings list sorting.

Open Scope Z_scope.

(** ** JavaScript numbers *)

Inductive number : Type :=
  | Num (q : Q)
  | PosInf
  | NegInf
  | NaN.

Definition isFinite (x : number) : bool :=
  match x with Num _ => true | _ => false end.

(** [x + y] *)
Definition numAdd (x y : number) : number :=
  match x, y with
  | NaN, _ | _, NaN => NaN
  | Num a, Num b => Num (a + b)
  | PosInf, NegInf | NegInf, PosInf => NaN
  | PosInf, _ | _, PosInf => PosInf
  | NegInf, _ | _, NegInf => NegInf
  end.

(** [-x] *)
Definition numNeg (x : number) : number :=
  match x with
  | Num a => Num (- a)
  | PosInf => NegInf
  | NegInf => PosInf
  | NaN => NaN
  end.

(** [x - y] *)
Definition numSub (x y : number) : number := numAdd x (numNeg y).

(** [x / y]; a zero denominator is the positive zero. *)
Definition numDiv (x y : number) : number :=
  match x, y with
  | NaN, _ | _, NaN => NaN
  | Num a, Num b =>
      if Qeq_bool b 0 then
        match (a ?= 0)%Q with
        | Eq => NaN
        | Gt => PosInf
        | Lt => NegInf
        end
      else Num (a / b)
  | Num _, (PosInf | NegInf) => Num 0
  | (PosInf | NegInf), (PosInf | NegInf) => NaN
  | PosInf, Num b => if Qle_bool 0 b then PosInf else NegInf
  | NegInf, Num b => if Qle_bool 0 b then NegInf else PosInf
  end.

(** [x > 0] *)
Definition numIsPositive (x : number) : bool :=
  match x with
  | Num a => match (a ?= 0)%Q with Gt => true | _ => false end
  | PosInf => true
  | _ => false
  end.

(** Two numbers are the same JavaScript value up to the representation of
    the rational. *)
Definition numEquiv (x y : number) : Prop :=
  match x, y with
  | Num a, Num b => (a == b)%Q
  | PosInf, PosInf | NegInf, NegInf | NaN, NaN => True
  | _, _ => False
  end.

(** ** History points *)

Record HistoryPoint : Type := mkPoint {
  date : Z;
  version : string;
  count : number;
}.

(** ** transformToPercentage *)

(** One turn of the loop that fills [totalCountByDate]. *)
Definition addToTotal (totalCountByDate : gmap Z number) (point : HistoryPoint)
  : gmap Z number :=
  let prevTotal := default (Num 0) (totalCountByDate !! date point) in
  <[date point := numAdd prevTotal (count point)]> totalCountByDate.

Definition totalCountByDate (points : list HistoryPoint) : gmap Z number :=
  foldl addToTotal ∅ points.

(** A number divided by [undefined] is NaN. *)
Definition divideByTotal (c : number) (total : option number) : number :=
  match total with
  | Some t => numDiv c t
  | None => NaN
  end.

Definition transformToPercentage (points : list HistoryPoint) : list HistoryPoint :=
  let totals := totalCountByDate points in
  map (fun point =>
         {| date := date point;
            version := version point;
            count := divideByTotal (count point) (totals !! date point) |})
      points.

(** The counts of the points of one date, in list order, and their sum as
    the loop computes it, from the left and starting at 0. *)
Definition countsOn (d : Z) (points : list HistoryPoint) : list number :=
  map count (filter (fun p => date p = d) points).

Definition sumNumbers (l : list number) : number := foldl numAdd (Num 0) l.

(** ** Arrays, sets and maps of the host language *)

(** [Array.prototype.sort] with a comparator: [gt x y] says that the
    comparator is positive at [(x, y)].  The sort is stable (ECMAScript 2019);
    for a consistent comparator its result is the one of this insertion
    sort. *)
Fixpoint insertSorted {A : Type} (gt : A -> A -> bool) (x : A) (l : list A) : list A :=
  match l with
  | [] => [x]
  | y :: l' => if gt x y then y :: insertSorted gt x l' else x :: y :: l'
  end.

Definition sortWith {A : Type} (gt : A -> A -> bool) (l : list A) : list A :=
  foldr (insertSorted gt) [] l.

(** [String(d)] for an integer [d] below 10^21 in absolute value. *)
Definition toString (d : Z) : string := NilZero.string_of_int (Z.to_int d).

(** [Array.prototype.sort] without a comparator: the elements are compared
    as strings, by code units. *)
Definition defaultSort (l : list Z) : list Z :=
  sortWith (fun x y => String.ltb (toString y) (toString x)) l.

(** [l.slice(start)] *)
Definition slice {A : Type} (start : Z) (l : list A) : list A :=
  let len := Z.of_nat (length l) in
  let k := if start <? 0 then Z.max (len + start) 0 else Z.min start len in
  drop (Z.to_nat k) l.

(** [s.add(x)] on a [Set], which iterates in insertion order. *)
Definition setAdd {A : Type} `{EqDecision A} (s : list A) (x : A) : list A :=
  if bool_decide (x ∈ s) then s else s ++ [x].

(** A [Map] keyed by dates, in insertion order. *)
Definition mapGet {V : Type} (m : list (Z * V)) (k : Z) : option V :=
  (fun e => snd (snd e)) <$> list_find (fun e => fst e = k) m.

Definition mapSet {V : Type} (m : list (Z * V)) (k : Z) (v : V) : list (Z * V) :=
  match list_find (fun e => fst e = k) m with
  | Some (i, _) => <[i := (k, v)]> m
  | None => m ++ [(k, v)]
  end.

Definition mapKeys {V : Type} (m : list (Z * V)) : list Z := map fst m.

(** ** filterTopN *)

Record VersionCount : Type := mkVersionCount {
  vcVersion : string;
  vcCount : number;
}.

(** One turn of the loop that fills [versionsInWindow]. *)
Definition addToWindow (earliestAllowableDate : Z)
    (versionsInWindow : list VersionCount) (point : HistoryPoint)
  : list VersionCount :=
  if earliestAllowableDate <=? date point then
    let newCount :=
      if date point <? earliestAllowableDate then Num 0 else count point in
    match list_find (fun v => vcVersion v = version point) versionsInWindow with
    | Some (i, existingCount) =>
        <[i := {| vcVersion := vcVersion existingCount;
                  vcCount := numAdd (vcCount existingCount) newCount |}]>
          versionsInWindow
    | None =>
        versionsInWindow ++ [{| vcVersion := version point; vcCount := newCount |}]
    end
  else versionsInWindow.

Definition versionsInWindow (earliestAllowableDate : Z)
    (historyPoints : list HistoryPoint) : list VersionCount :=
  foldl (addToWindow earliestAllowableDate) [] historyPoints.

(** [versionsInWindow.sort((a, b) => a.count - b.count).slice(-n).map(v => v.version)] *)
Definition topVersions (earliestAllowableDate : Z)
    (historyPoints : list HistoryPoint) (n : Z) : list string :=
  map vcVersion
    (slice (- n)
       (sortWith (fun a b => numIsPositive (numSub (vcCount a) (vcCount b)))
          (versionsInWindow earliestAllowableDate historyPoints))).

(** One turn of the loop that fills [topVersionsInOrder]. *)
Definition addInOrder (topVersions : list string)
    (topVersionsInOrder : list string) (point : HistoryPoint) : list string :=
  if bool_decide (version point ∈ topVersions)
     && negb (bool_decide (version point ∈ topVersionsInOrder))
  then topVersionsInOrder ++ [version point]
  else topVersionsInOrder.

Definition topVersionsInOrder (topVersions : list string)
    (historyPoints : list HistoryPoint) : list string :=
  foldl (addInOrder topVersions) [] historyPoints.

Definition filteredPoints (topVersions : list string)
    (historyPoints : list HistoryPoint) : list HistoryPoint :=
  filter (fun point => version point ∈ topVersions) historyPoints.

(** One turn of the loop that fills [pointsByDate]. *)
Definition addPointByDate (pointsByDate : list (Z * list HistoryPoint))
    (point : HistoryPoint) : list (Z * list HistoryPoint) :=
  let last := default [] (mapGet pointsByDate (date point)) in
  mapSet pointsByDate (date point) (last ++ [point]).

Definition pointsByDate (filteredPoints : list HistoryPoint)
  : list (Z * list HistoryPoint) :=
  foldl addPointByDate [] filteredPoints.

(** The point pushed for one date and one kept version.  In
    [{ date, ...existingPoint }] the fields of the point come last. *)
Definition zeroFilledPoint (pointsByDate : list (Z * list HistoryPoint))
    (d : Z) (topVersion : string) : HistoryPoint :=
  match list_find (fun p => version p = topVersion)
                  (default [] (mapGet pointsByDate d)) with
  | Some (_, existingPoint) =>
      {| date := date existingPoint;
         version := version existingPoint;
         count := count existingPoint |}
  | None => {| date := d; version := topVersion; count := Num 0 |}
  end.

Definition pointsWithZero (earliestAllowableDate : Z)
    (pointsByDate : list (Z * list HistoryPoint))
    (topVersionsInOrder : list string) (datesAscending : list Z)
  : list HistoryPoint :=
  flat_map (fun d =>
              if d <? earliestAllowableDate then []
              else map (zeroFilledPoint pointsByDate d) topVersionsInOrder)
           datesAscending.

(** [[...pointsByDate.keys()].sort()] *)
Definition datesAscending (pointsByDate : list (Z * list HistoryPoint)) : list Z :=
  defaultSort (mapKeys pointsByDate).

Section LocalTime.

(** [new Date(d).setHours(0, 0, 0, 0)] *)
Variable startOfDay : Z -> Z.

Definition earliestAllowableDate (latestDate windowInDays : Z) : Z :=
  let latestDay := startOfDay latestDate in
  latestDay - windowInDays * 24 * 60 * 60 * 1000.

Definition filterTopN (historyPoints : list HistoryPoint) (n windowInDays : Z)
  : list HistoryPoint :=
  match last historyPoints with
  | None => []
  | Some lastPoint =>
      let latestDate := date lastPoint in
      let earliest := earliestAllowableDate latestDate windowInDays in
      let top := topVersions earliest historyPoints n in
      let inOrder := topVersionsInOrder top historyPoints in
      let byDate := pointsByDate (filteredPoints top historyPoints) in
      pointsWithZero earliest byDate inOrder (datesAscending byDate)
  end.

(** The versions [filterTopN] keeps, in display order. *)
Definition keptVersions (historyPoints : list HistoryPoint) (n windowInDays : Z)
  : list string :=
  match last historyPoints with
  | None => []
  | Some lastPoint =>
      let earliest := earliestAllowableDate (date lastPoint) windowInDays in
      topVersionsInOrder (topVersions earliest historyPoints n) historyPoints
  end.

(** [topRawDataPoints] of the component: an absent or zero
    [maxVersionsShown] is falsy and leaves the points as they are. *)
Definition topRawDataPoints (historyPoints : list HistoryPoint)
    (maxDaysShown maxVersionsShown : option Z) : list HistoryPoint :=
  let maxDaysShown := default 30 maxDaysShown in
  match maxVersionsShown with
  | Some n =>
      if n =? 0 then historyPoints
      else filterTopN historyPoints n maxDaysShown
  | None => historyPoints
  end.

(** ** calculateDateTicks *)

Definition fromDayStart (d duration : Z) : Z := startOfDay d + duration.

(** The [while] loop that doubles [tickInterval]; [None] when the fuel
    runs out before the loop ends. *)
Fixpoint doubleTickInterval (fuel : nat)
    (dataDuration maxInteriorTicks tickInterval : Z) : option Z :=
  match fuel with
  | O => None
  | S fuel' =>
      if dataDuration / tickInterval >? maxInteriorTicks
      then doubleTickInterval fuel' dataDuration maxInteriorTicks (tickInterval * 2)
      else Some tickInterval
  end.

(** One turn of the loop over [dates]; the state is [(ticks, nextTick)]. *)
Definition scanDate (tickInterval : Z) (st : list Z * Z) (d : Z) : list Z * Z :=
  if snd st <=? d
  then (setAdd (fst st) d, fromDayStart d tickInterval)
  else st.

(** A tick is [Some d], or [None] for [undefined], which is what
    [dates[0]] is on an empty array.  On an empty array past the three
    early returns, [dataDuration] and [nextTick] are NaN, the loops do not
    run, and the set holds [undefined] alone. *)
Definition calculateDateTicks (fuel : nat) (dates : list Z) (maxTicks : Z)
  : option (list (option Z)) :=
  let first := head dates in
  let last := last dates in
  if maxTicks =? 0 then Some []
  else if maxTicks =? 1 then Some [first]
  else if maxTicks =? 2 then Some [first; last]
  else
    match first, last with
    | Some first, Some last =>
        let dataDuration := last - first in
        let dayDuration := 24 * 60 * 60 * 1000 in
        let weekDuration := 7 * dayDuration in
        let maxInteriorTicks := maxTicks - 1 in
        match doubleTickInterval fuel dataDuration maxInteriorTicks weekDuration with
        | Some tickInterval =>
            let ticks := [first] in
            let nextTick := fromDayStart first tickInterval in
            Some (map Some (fst (foldl (scanDate tickInterval) (ticks, nextTick) dates)))
        | None => None
        end
    | _, _ => Some [None]
    end.

End LocalTime.

(** The start of the day of [d] on a host whose time zone is UTC. *)
Definition utcStartOfDay (d : Z) : Z := d - d mod 86400000.

(** ** The rows of the chart *)

Inductive MeasurementTransform : Type := totalDownloads | percentage.

Definition datapoints (measurementTransform : option MeasurementTransform)
    (topRawDataPoints : list HistoryPoint) : list HistoryPoint :=
  match measurementTransform with
  | Some percentage => transformToPercentage topRawDataPoints
  | _ => topRawDataPoints
  end.

(** [[...new Set(datapoints.map((p) => p.version))]] *)
Definition allVersionsArr (datapoints : list HistoryPoint) : list string :=
  foldl setAdd [] (map version datapoints).

(** A row [{ date, versionCounts }]; [versionCounts] holds the own properties
    of the object. *)
Record ChartRow : Type := mkRow {
  rowDate : Z;
  versionCounts : gmap string number;
}.

(** [counts[v] = c] on a plain object.  The name [__proto__] is an accessor
    that the object inherits from [Object.prototype], and its setter ignores
    a number: the assignment stores nothing, unless the object has a
    property of its own with that name, which the literal [{ [v]: c }]
    creates.  Every other name is stored. *)
Definition assignCount (counts : gmap string number) (v : string) (c : number)
  : gmap string number :=
  match counts !! v with
  | None => if bool_decide (v = "__proto__") then counts else <[v := c]> counts
  | Some _ => <[v := c]> counts
  end.

(** The body of the inner loop of the component, for the version [v] of the
    outer loop. *)
Definition addMeasurePoint (v : string) (rows : list ChartRow)
    (measurePoint : HistoryPoint) : list ChartRow :=
  if bool_decide (version measurePoint = v) then
    match list_find (fun p => rowDate p = date measurePoint) rows with
    | Some (i, datePoint) =>
        <[i := {| rowDate := rowDate datePoint;
                  versionCounts :=
                    assignCount (versionCounts datePoint) v (count measurePoint) |}]>
          rows
    | None =>
        rows ++ [{| rowDate := date measurePoint;
                    versionCounts := {[v := count measurePoint]} |}]
    end
  else rows.

Definition data (datapoints : list HistoryPoint) : list ChartRow :=
  foldl (fun rows v => foldl (addMeasurePoint v) rows datapoints)
        [] (allVersionsArr datapoints).

(** [data.find((p) => p.date === d)] and then [versionCounts[v]]. *)
Definition rowOf (rows : list ChartRow) (d : Z) : option ChartRow :=
  snd <$> list_find (fun p => rowDate p = d) rows.

Definition countIn (rows : list ChartRow) (d : Z) (v : string) : option number :=
  match rowOf rows d with
  | Some row => versionCounts row !! v
  | None => None
  end.


(** The count of the last point of the list with the date [d] and the
    version [v]. *)
Definition lastCount (d : Z) (v : string) (points : list HistoryPoint) : option number :=
  count <$> last (filter (fun p => date p = d /\ version p = v) points).

(** The invariant of [pointsByDate]: every key occurs once, and the points
    filed under a date have that date. *)
Definition byDateOk (m : list (Z * list HistoryPoint)) : Prop :=
  NoDup (mapKeys m) /\ forall k l p, (k, l) ∈ m -> p ∈ l -> date p = k.

(** ** Definitions for the properties of the data flow *)

(** The first point of the list with the date [d] and the version [v]. *)
Definition firstPoint (d : Z) (v : string) (points : list HistoryPoint)
  : option HistoryPoint :=
  head (filter (fun p => date p = d /\ version p = v) points).

(** The labels of a list in the order of their first occurrence: the head,
    then the first occurrences of the rest without the head. *)
Fixpoint firstOccurrences (l : list string) : list string :=
  match l with
  | [] => []
  | v :: l' => v :: filter (fun u => u <> v) (firstOccurrences l')
  end.

(** The counts of the points of the version [v] at or after the boundary
    [e], in list order. *)
Definition windowCounts (e : Z) (v : string) (points : list HistoryPoint) : list number :=
  map count (filter (fun p => e <= date p /\ version p = v) points).

(** The entry of [versionsInWindow] for the version [v]. *)
Definition windowEntry (vw : list VersionCount) (v : string) : option VersionCount :=
  snd <$> list_find (fun c => vcVersion c = v) vw.

(** The counts of two ranked versions are numbers in ascending order. *)
Definition countLe (a b : VersionCount) : Prop :=
  exists x y, vcCount a = Num x /\ vcCount b = Num y /\ (x <= y)%Q.

(** The number written by a list of decimal digits, most significant digit
    first, after the digits of [acc]. *)
Fixpoint uintValue (u : Decimal.uint) (acc : N) : N :=
  match u with
  | Decimal.Nil => acc
  | Decimal.D0 u => uintValue u (10 * acc)
  | Decimal.D1 u => uintValue u (10 * acc + 1)
  | Decimal.D2 u => uintValue u (10 * acc + 2)
  | Decimal.D3 u => uintValue u (10 * acc + 3)
  | Decimal.D4 u => uintValue u (10 * acc + 4)
  | Decimal.D5 u => uintValue u (10 * acc + 5)
  | Decimal.D6 u => uintValue u (10 * acc + 6)
  | Decimal.D7 u => uintValue u (10 * acc + 7)
  | Decimal.D8 u => uintValue u (10 * acc + 8)
  | Decimal.D9 u => uintValue u (10 * acc + 9)
  end%N.

(** * Properties *)

(** ** The scenarios of the specification *)

Example transformToPercentage_ex :
  transformToPercentage
    [mkPoint 1 "a" (Num 10); mkPoint 1 "b" (Num 30); mkPoint 2 "a" (Num 5)]
  = [mkPoint 1 "a" (Num (10 / (0 + 10 + 30))); mkPoint 1 "b" (Num (30 / (0 + 10 + 30)));
     mkPoint 2 "a" (Num (5 / (0 + 5)))].
Proof. reflexivity. Qed.

Example filterTopN_ex :
  filterTopN utcStartOfDay [mkPoint 1 "a" (Num 10); mkPoint 1 "b" (Num 30)] 1 30
  = [mkPoint 1 "b" (Num 30)].
Proof. vm_compute. reflexivity. Qed.

Example calculateDateTicks_ex :
  calculateDateTicks utcStartOfDay 1 [0; 86400000; 40 * 86400000] 6
  = Some [Some 0; Some (40 * 86400000)].
Proof. vm_compute. reflexivity. Qed.

(** ** Sums of numbers *)

Lemma numAdd_finite x y q :
  numAdd x y = Num q -> exists a b, x = Num a /\ y = Num b /\ q = (a + b)%Q.
Proof. destruct x, y; simpl; intros H; try discriminate. inversion H. eauto. Qed.

Lemma foldl_numAdd_finite l : forall x q,
  foldl numAdd x l = Num q -> isFinite x = true /\ Forall (fun y => isFinite y = true) l.
Proof.
  induction l as [|y l IH]; simpl; intros x q H.
  - subst. auto.
  - apply IH in H as [Hxy Hl].
    destruct x, y; try done. auto.
Qed.

Lemma sumNumbers_snoc l x : sumNumbers (l ++ [x]) = numAdd (sumNumbers l) x.
Proof. unfold sumNumbers. apply foldl_snoc. Qed.

Lemma countsOn_snoc d points p :
  countsOn d (points ++ [p]) =
  countsOn d points ++ (if decide (date p = d) then [count p] else []).
Proof.
  unfold countsOn. rewrite filter_app, map_app. f_equal.
  rewrite filter_cons, filter_nil. by destruct (decide (date p = d)).
Qed.

Lemma countsOn_absent d points : d ∉ map date points -> countsOn d points = [].
Proof.
  induction points as [|p points IH]; [done|]. intros Hd. unfold countsOn.
  rewrite filter_cons. destruct (decide (date p = d)) as [<-|_].
  - destruct Hd. simpl. left.
  - apply IH. intros Hin. apply Hd. simpl. by right.
Qed.

Lemma countsOn_elem_of d points p : p ∈ points -> date p = d -> count p ∈ countsOn d points.
Proof.
  intros Hp Hd. unfold countsOn. apply (list_elem_of_fmap_2 count).
  by apply list_elem_of_filter.
Qed.

(** ** transformToPercentage *)

(** The table of totals holds, for each date of the list, the sum of the
    counts of the points of that date. *)
Lemma totalCountByDate_lookup points d :
  totalCountByDate points !! d =
  if decide (d ∈ map date points) then Some (sumNumbers (countsOn d points)) else None.
Proof.
  induction points as [|p points IH] using rev_ind.
  - done.
  - unfold totalCountByDate in *. rewrite foldl_snoc. unfold addToTotal at 1.
    rewrite map_app, countsOn_snoc, lookup_insert. simpl.
    destruct (decide (date p = d)) as [<-|Hne].
    + rewrite decide_True by (apply elem_of_app; right; left).
      rewrite sumNumbers_snoc, IH. f_equal. f_equal.
      destruct (decide (date p ∈ map date points)) as [|Hnot]; [done|].
      by rewrite countsOn_absent.
    + rewrite app_nil_r, IH.
      destruct (decide (d ∈ map date points)) as [Hin|Hnot].
      * rewrite decide_True; [done|]. apply elem_of_app. by left.
      * rewrite decide_False; [done|]. intros [?|Hd%list_elem_of_singleton]%elem_of_app; congruence.
Qed.

Lemma countsOn_percentage (totals : gmap Z number) d points :
  countsOn d
    (map (fun point =>
            {| date := date point; version := version point;
               count := divideByTotal (count point) (totals !! date point) |})
         points)
  = map (fun c => divideByTotal c (totals !! d)) (countsOn d points).
Proof.
  unfold countsOn. induction points as [|p points IH]; [done|].
  simpl. rewrite !filter_cons. simpl.
  destruct (decide (date p = d)) as [<-|]; simpl; by rewrite IH.
Qed.

Lemma numDiv_finite a t :
  ~ (t == 0)%Q -> numDiv (Num a) (Num t) = Num (a / t).
Proof.
  intros Ht. simpl. destruct (Qeq_bool t 0) eqn:E; [|done].
  by apply Qeq_bool_iff in E.
Qed.

Lemma foldl_numAdd_quotients t l : forall a a' s,
  ~ (t == 0)%Q -> (a' == a / t)%Q ->
  foldl numAdd (Num a) l = Num s ->
  exists r, foldl numAdd (Num a') (map (fun c => numDiv c (Num t)) l) = Num r
            /\ (r == s / t)%Q.
Proof.
  induction l as [|x l IH]; simpl; intros a a' s Ht Ha H.
  - inversion H; subst. eauto.
  - pose proof (foldl_numAdd_finite _ _ _ H) as [Hfin _].
    destruct x as [b| | |]; try done.
    rewrite numDiv_finite by done. cbn [numAdd].
    apply (IH (a + b)%Q); [done| |done].
    rewrite Ha. field. done.
Qed.

(** C9: for every point list and every date whose counts sum to a nonzero
    number, the counts that [transformToPercentage] gives to the points of
    that date sum to 1 (exact rational arithmetic). *)
Theorem transformToPercentage_sums_to_one points d t :
  sumNumbers (countsOn d points) = Num t ->
  ~ (t == 0)%Q ->
  numEquiv (sumNumbers (countsOn d (transformToPercentage points))) (Num 1).
Proof.
  intros Hsum Ht. unfold transformToPercentage.
  rewrite countsOn_percentage, totalCountByDate_lookup.
  destruct (decide (d ∈ map date points)) as [_|Hnot].
  - rewrite Hsum. cbn [divideByTotal].
    destruct (foldl_numAdd_quotients t (countsOn d points) 0 0 t) as (r & Hr & Hrt);
      [done|by field|done|].
    unfold sumNumbers. rewrite Hr. simpl. rewrite Hrt. by field.
  - rewrite countsOn_absent in Hsum by done. inversion Hsum; subst t.
    by destruct Ht.
Qed.

(** The theorem at two points of one date, with total 40. *)
Lemma transformToPercentage_sums_to_one_witness :
  let points := [mkPoint 1 "a" (Num 10); mkPoint 1 "b" (Num 30); mkPoint 2 "a" (Num 0)] in
  sumNumbers (countsOn 1 points) = Num (0 + 10 + 30) /\
  numEquiv (sumNumbers (countsOn 1 (transformToPercentage points))) (Num 1).
Proof.
  split; [reflexivity|].
  apply (transformToPercentage_sums_to_one _ 1 (0 + 10 + 30)); [reflexivity|].
  unfold Qeq. simpl. lia.
Defined.

(** C10: [transformToPercentage] returns a list of the same length whose
    i-th point has the date and the version of the i-th input point; only
    the count changes.  The function builds new points and writes to neither
    the input list nor its points. *)
Theorem transformToPercentage_frame points :
  length (transformToPercentage points) = length points /\
  map date (transformToPercentage points) = map date points /\
  map version (transformToPercentage points) = map version points.
Proof.
  unfold transformToPercentage. generalize (totalCountByDate points) as totals.
  intros totals. rewrite length_map, !map_map. simpl. done.
Qed.

(** C1, as the code has it: the normalizer does not clamp.  For a point of
    a date whose counts sum to the number [t], the output count is the
    quotient [c / t] when [t] is not zero; when [t] is zero it is the result
    of the division by zero, NaN for a zero count (an infinity for a nonzero
    one). *)
Theorem transformToPercentage_count points i p t :
  points !! i = Some p ->
  sumNumbers (countsOn (date p) points) = Num t ->
  exists c,
    count p = Num c /\
    transformToPercentage points !! i =
      Some {| date := date p; version := version p;
              count := if Qeq_bool t 0
                       then match (c ?= 0)%Q with
                            | Eq => NaN
                            | Gt => PosInf
                            | Lt => NegInf
                            end
                       else Num (c / t) |}.
Proof.
  intros Hi Hsum.
  assert (Hp : p ∈ points) by (apply list_elem_of_lookup; eauto).
  pose proof (foldl_numAdd_finite _ _ _ Hsum) as [_ Hfin].
  rewrite Forall_forall in Hfin.
  pose proof (Hfin _ (countsOn_elem_of _ _ _ Hp eq_refl)) as Hc.
  destruct (count p) as [c| | |] eqn:Ec; try done.
  exists c. split; [done|].
  unfold transformToPercentage.
  change (map ?f points) with (f <$> points).
  rewrite list_lookup_fmap, Hi. simpl.
  rewrite totalCountByDate_lookup, decide_True, Hsum, Ec; [done|].
  apply (list_elem_of_fmap_2 date). done.
Qed.

(** The theorem at the second of two zero counts of one date. *)
Lemma transformToPercentage_count_witness :
  let points := [mkPoint 1 "a" (Num 0); mkPoint 1 "b" (Num 0)] in
  transformToPercentage points !! 1%nat = Some (mkPoint 1 "b" NaN).
Proof.
  destruct (transformToPercentage_count
              [mkPoint 1 "a" (Num 0); mkPoint 1 "b" (Num 0)] 1
              (mkPoint 1 "b" (Num 0)) (0 + 0 + 0) eq_refl eq_refl)
    as (c & Hc & Hout).
  simpl in Hc. inversion Hc; subst c. exact Hout.
Defined.

(** Two zero counts on one date: both outputs are NaN, not 0. *)
Lemma transformToPercentage_zero_total_is_NaN :
  transformToPercentage [mkPoint 1 "a" (Num 0); mkPoint 1 "b" (Num 0)]
  = [mkPoint 1 "a" NaN; mkPoint 1 "b" NaN].
Proof. reflexivity. Qed.

(** ** Finding an element and replacing it in place *)

Lemma map_fmap {A B : Type} (f : A -> B) (l : list A) : map f l = f <$> l.
Proof. reflexivity. Qed.

Lemma list_find_insert_key {A : Type} (P : A -> Prop) `{!forall x, Decision (P x)}
    (l : list A) : forall (i : nat) (x y : A),
  l !! i = Some x -> (P x <-> P y) ->
  list_find P (<[i := y]> l) =
  (fun jz => (fst jz, if decide (fst jz = i) then y else snd jz)) <$> list_find P l.
Proof.
  induction l as [|z l IH]; intros i x y Hi Hxy; [done|].
  destruct i as [|i]; simpl in *.
  - inversion Hi; subst z.
    destruct (decide (P y)), (decide (P x)); try tauto; try done.
    destruct (list_find P l) as [[j w]|]; done.
  - destruct (decide (P z)); [done|].
    rewrite (IH i x y Hi Hxy).
    destruct (list_find P l) as [[j w]|]; simpl; [|done].
    do 2 f_equal. destruct (decide (j = i)), (decide (S j = S i)); done || lia.
Qed.

(** ** The rows of the chart *)

Lemma rowOf_snoc rows row d :
  rowOf (rows ++ [row]) d =
  match rowOf rows d with
  | Some r => Some r
  | None => if decide (rowDate row = d) then Some row else None
  end.
Proof.
  unfold rowOf.
  destruct (list_find (fun p => rowDate p = d) rows) as [[j r]|] eqn:E.
  - by rewrite (list_find_app_l _ _ _ _ _ E).
  - rewrite (list_find_app_r _ _ _ E). simpl.
    by destruct (decide (rowDate row = d)).
Qed.

Lemma rowOf_insert rows i row row' d :
  rows !! i = Some row -> rowDate row' = rowDate row ->
  rowOf (<[i := row']> rows) d =
  match list_find (fun p => rowDate p = d) rows with
  | Some (j, r) => Some (if decide (j = i) then row' else r)
  | None => None
  end.
Proof.
  intros Hi Hd. unfold rowOf.
  rewrite (list_find_insert_key _ rows i row row' Hi) by (by rewrite Hd).
  by destruct (list_find _ rows) as [[j r]|].
Qed.

Lemma lookup_assignCount counts v c v' :
  v' <> "__proto__" ->
  assignCount counts v c !! v' = if decide (v = v') then Some c else counts !! v'.
Proof.
  intros Hv'. unfold assignCount.
  destruct (counts !! v) eqn:E; [apply lookup_insert|].
  case_bool_decide as Hv; [|apply lookup_insert].
  rewrite decide_False; [done|congruence].
Qed.

Lemma countIn_addMeasurePoint v rows p d v' :
  v' <> "__proto__" ->
  countIn (addMeasurePoint v rows p) d v' =
  if decide (version p = v /\ date p = d /\ v = v')
  then Some (count p) else countIn rows d v'.
Proof.
  intros Hproto.
  unfold addMeasurePoint. case_bool_decide as Hv; cycle 1.
  { rewrite decide_False; [done|tauto]. }
  destruct (list_find (fun r => rowDate r = date p) rows) as [[i datePoint]|] eqn:E.
  - pose proof E as (Hi & Hdp & _)%list_find_Some.
    unfold countIn. rewrite (rowOf_insert _ _ _ _ _ Hi) by done.
    unfold rowOf. destruct (decide (date p = d)) as [<-|Hd].
    + rewrite E. simpl. rewrite decide_True by done. simpl.
      rewrite lookup_assignCount by done. destruct (decide (v = v')) as [<-|Hvv].
      * by rewrite decide_True.
      * rewrite decide_False; [done|tauto].
    + rewrite decide_False by tauto.
      destruct (list_find (fun r => rowDate r = d) rows) as [[j r]|] eqn:E'; [|done].
      simpl. destruct (decide (j = i)) as [->|]; [|done].
      apply list_find_Some in E' as (Hj & Hr & _). congruence.
  - unfold countIn. rewrite rowOf_snoc. simpl.
    destruct (decide (date p = d)) as [<-|Hd].
    + unfold rowOf. rewrite E. simpl.
      destruct (decide (v = v')) as [<-|Hvv].
      * rewrite decide_True by done. apply lookup_singleton_eq.
      * rewrite decide_False by tauto. by apply lookup_singleton_ne.
    + rewrite decide_False by tauto. by destruct (rowOf rows d).
Qed.

Lemma lastCount_snoc d v points p :
  lastCount d v (points ++ [p]) =
  if decide (date p = d /\ version p = v) then Some (count p) else lastCount d v points.
Proof.
  unfold lastCount. rewrite filter_app, filter_cons, filter_nil.
  destruct (decide (date p = d /\ version p = v)).
  - by rewrite last_snoc.
  - by rewrite app_nil_r.
Qed.

Lemma countIn_inner v rows points d v' :
  v' <> "__proto__" ->
  countIn (foldl (addMeasurePoint v) rows points) d v' =
  if decide (v = v')
  then match lastCount d v points with
       | Some c => Some c
       | None => countIn rows d v'
       end
  else countIn rows d v'.
Proof.
  intros Hproto. induction points as [|p points IH] using rev_ind.
  - simpl. by destruct (decide (v = v')).
  - rewrite foldl_snoc, countIn_addMeasurePoint, IH, lastCount_snoc by done.
    destruct (decide (v = v')) as [<-|Hv].
    + destruct (decide (date p = d /\ version p = v)) as [[? ?]|Hn].
      * by rewrite decide_True.
      * rewrite decide_False; [done|tauto].
    + rewrite decide_False; [done|tauto].
Qed.

Lemma countIn_outer vs rows points d v :
  v <> "__proto__" ->
  countIn (foldl (fun rows v => foldl (addMeasurePoint v) rows points) rows vs) d v =
  if decide (v ∈ vs)
  then match lastCount d v points with
       | Some c => Some c
       | None => countIn rows d v
       end
  else countIn rows d v.
Proof.
  intros Hproto. induction vs as [|v0 vs IH] using rev_ind; [done|].
  rewrite foldl_snoc, countIn_inner, IH by done.
  destruct (decide (v0 = v)) as [->|Hv].
  - rewrite (decide_True (P := v ∈ vs ++ [v])) by (apply elem_of_app; right; left).
    destruct (lastCount d v points); [done|]. by destruct (decide (v ∈ vs)).
  - destruct (decide (v ∈ vs)) as [Hin|Hnot].
    + rewrite decide_True; [done|]. apply elem_of_app. by left.
    + rewrite decide_False; [done|].
      intros [?|?%list_elem_of_singleton]%elem_of_app; congruence.
Qed.

Lemma elem_of_foldl_setAdd {A : Type} `{EqDecision A} (l s : list A) (x : A) :
  x ∈ foldl setAdd s l <-> x ∈ s \/ x ∈ l.
Proof.
  revert s. induction l as [|y l IH]; intros s; simpl.
  - rewrite elem_of_nil. tauto.
  - rewrite IH, elem_of_cons. unfold setAdd. case_bool_decide as Hy.
    + split; [tauto|]. intros [?|[->|?]]; tauto.
    + rewrite elem_of_app, list_elem_of_singleton. tauto.
Qed.

Lemma elem_of_allVersionsArr points v :
  v ∈ allVersionsArr points <-> v ∈ map version points.
Proof.
  unfold allVersionsArr. rewrite elem_of_foldl_setAdd, elem_of_nil. tauto.
Qed.

(** After the two loops, the count a row holds for a version other than
    [__proto__] is the count of the last point of the list with that date
    and that version. *)
Lemma countIn_data points d v :
  v <> "__proto__" -> countIn (data points) d v = lastCount d v points.
Proof.
  intros Hproto. unfold data. rewrite countIn_outer by done.
  destruct (decide (v ∈ allVersionsArr points)) as [_|Hnot].
  - by destruct (lastCount d v points).
  - unfold lastCount.
    destruct (last (filter _ points)) as [q|] eqn:E; [|done].
    apply last_Some_elem_of, list_elem_of_filter in E as [[_ Hq] Hin].
    destruct Hnot. apply elem_of_allVersionsArr. subst v.
    by apply (list_elem_of_fmap_2 version).
Qed.

(** C8, as the code has it: a repeated (date, version) pair keeps the count
    of its last point.  For every input point whose version is not the
    property name [__proto__] and that no later point of the list repeats
    with the same date and version, the row found for the date of the point
    holds the count of the point under its version. *)
Theorem data_round_trip points i p :
  points !! i = Some p ->
  version p <> "__proto__" ->
  (forall j q, (i < j)%nat -> points !! j = Some q ->
               ~ (date q = date p /\ version q = version p)) ->
  exists row,
    row ∈ data points /\ rowOf (data points) (date p) = Some row /\
    rowDate row = date p /\ versionCounts row !! version p = Some (count p).
Proof.
  intros Hi Hproto Hlater.
  assert (Hnone : filter (fun q => date q = date p /\ version q = version p)
                         (drop (S i) points) = []).
  { apply elem_of_nil_inv. intros q [Hq Hin]%list_elem_of_filter.
    apply list_elem_of_lookup in Hin as [j Hj]. rewrite lookup_drop in Hj.
    apply (Hlater (S i + j)%nat q); [lia|done..]. }
  assert (Hlast : lastCount (date p) (version p) points = Some (count p)).
  { unfold lastCount. rewrite <- (take_drop_middle _ _ _ Hi) at 1.
    rewrite filter_app, filter_cons_True, Hnone by done.
    by rewrite last_snoc. }
  rewrite <- countIn_data in Hlast by done. unfold countIn in Hlast.
  destruct (rowOf (data points) (date p)) as [row|] eqn:E; [|done].
  exists row. unfold rowOf in E.
  destruct (list_find _ (data points)) as [[j r]|] eqn:E'; [|done].
  simpl in E. inversion E; subst r.
  apply list_find_Some in E' as (Hj & Hd & _).
  split_and!; [|done..]. apply list_elem_of_lookup. eauto.
Qed.

(** The theorem at the first of three points with distinct pairs. *)
Lemma data_round_trip_witness :
  let points := [mkPoint 1 "a" (Num 5); mkPoint 1 "b" (Num 7); mkPoint 2 "a" (Num 9)] in
  exists row,
    row ∈ data points /\ rowOf (data points) 1 = Some row /\
    rowDate row = 1 /\ versionCounts row !! "a" = Some (Num 5).
Proof.
  apply (data_round_trip
           [mkPoint 1 "a" (Num 5); mkPoint 1 "b" (Num 7); mkPoint 2 "a" (Num 9)]
           0 (mkPoint 1 "a" (Num 5)) eq_refl); [discriminate|].
  intros [|[|[|j]]] q Hlt Hq; simpl in Hq; try lia; inversion Hq; subst q; simpl.
  - intros [_ ?]; discriminate.
  - intros [? _]; discriminate.
Defined.

(** The pair (1, a) twice: no row holds the count of the first point.  And
    a point under the name [__proto__] on a date that already has a row: no
    row holds its count, though no pair is repeated. *)
Lemma data_round_trip_fails :
  (let points := [mkPoint 1 "a" (Num 5); mkPoint 1 "a" (Num 7)] in
   mkPoint 1 "a" (Num 5) ∈ points /\
   ~ exists row, row ∈ data points /\ rowDate row = 1 /\
                 versionCounts row !! "a" = Some (Num 5)) /\
  (let points := [mkPoint 1 "a" (Num 7); mkPoint 1 "__proto__" (Num 5)] in
   mkPoint 1 "__proto__" (Num 5) ∈ points /\
   ~ exists row, row ∈ data points /\ rowDate row = 1 /\
                 versionCounts row !! "__proto__" = Some (Num 5)).
Proof.
  split; (split; [by repeat constructor|]); intros (row & Hin & _ & Hc);
    vm_compute in Hin; apply list_elem_of_singleton in Hin; subst row;
    vm_compute in Hc; discriminate.
Qed.

(** ** Sorting and slicing *)

Lemma insertSorted_Permutation {A : Type} (gt : A -> A -> bool) (x : A) (l : list A) :
  insertSorted gt x l ≡ₚ x :: l.
Proof.
  induction l as [|y l IH]; simpl; [done|].
  destruct (gt x y); [|done]. rewrite IH. apply perm_swap.
Qed.

Lemma sortWith_Permutation {A : Type} (gt : A -> A -> bool) (l : list A) :
  sortWith gt l ≡ₚ l.
Proof.
  induction l as [|x l IH]; simpl; [done|].
  by rewrite insertSorted_Permutation, IH.
Qed.

Lemma slice_zero {A : Type} (l : list A) : slice 0 l = l.
Proof. unfold slice. simpl. by rewrite Z.min_l by lia. Qed.

Lemma slice_subseteq {A : Type} (start : Z) (l : list A) : slice start l ⊆ l.
Proof. apply subseteq_drop. Qed.

Lemma length_slice_tail {A : Type} (n : Z) (l : list A) :
  0 < n -> (length (slice (- n) l) <= Z.to_nat n)%nat.
Proof.
  intros Hn. unfold slice. rewrite length_drop.
  destruct (- n <? 0) eqn:E; lia.
Qed.

(** ** The loops of filterTopN *)

Lemma addInOrder_spec top acc p v :
  v ∈ addInOrder top acc p <-> v ∈ acc \/ (v ∈ top /\ v = version p).
Proof.
  unfold addInOrder. case_bool_decide as Htop; case_bool_decide as Hacc; simpl;
    rewrite ?elem_of_app, ?list_elem_of_singleton;
    intuition (subst; auto; tauto).
Qed.

Lemma addInOrder_NoDup top acc p : NoDup acc -> NoDup (addInOrder top acc p).
Proof.
  intros Hacc. unfold addInOrder. do 2 case_bool_decide; simpl; try done.
  apply NoDup_app. split_and!; [done| |apply NoDup_singleton].
  intros x Hx ->%list_elem_of_singleton. done.
Qed.

Lemma topVersionsInOrder_spec top points v :
  v ∈ topVersionsInOrder top points <-> v ∈ top /\ v ∈ map version points.
Proof.
  unfold topVersionsInOrder.
  induction points as [|p points IH] using rev_ind.
  - simpl. rewrite elem_of_nil. tauto.
  - rewrite foldl_snoc, addInOrder_spec, IH, map_app, elem_of_app. simpl.
    rewrite list_elem_of_singleton. tauto.
Qed.

Lemma topVersionsInOrder_NoDup top points : NoDup (topVersionsInOrder top points).
Proof.
  unfold topVersionsInOrder.
  induction points as [|p points IH] using rev_ind; [apply NoDup_nil_2|].
  rewrite foldl_snoc. by apply addInOrder_NoDup.
Qed.

(** *** The map from dates to points *)

Lemma mapKeys_mapSet {V : Type} (m : list (Z * V)) k v :
  mapKeys (mapSet m k v) =
  if decide (k ∈ mapKeys m) then mapKeys m else mapKeys m ++ [k].
Proof.
  unfold mapSet, mapKeys.
  destruct (list_find (fun e => fst e = k) m) as [[i e]|] eqn:E.
  - apply list_find_Some in E as (Hi & He & _).
    rewrite decide_True.
    + rewrite !map_fmap, list_fmap_insert. simpl. apply list_insert_id.
      by rewrite list_lookup_fmap, Hi, <- He.
    + rewrite <- He. apply (list_elem_of_fmap_2 fst), list_elem_of_lookup. eauto.
  - rewrite list_find_None, Forall_forall in E.
    rewrite decide_False; [by rewrite map_app|].
    intros (e & -> & He)%list_elem_of_fmap. by apply (E e).
Qed.

Lemma elem_of_mapSet {V : Type} (m : list (Z * V)) k v e :
  e ∈ mapSet m k v -> e ∈ m \/ e = (k, v).
Proof.
  unfold mapSet. destruct (list_find (fun e => fst e = k) m) as [[i e']|].
  - intros [j Hj]%list_elem_of_lookup.
    apply list_lookup_insert_Some in Hj as [(_ & <- & _)|[_ Hj]]; [by right|].
    left. apply list_elem_of_lookup. eauto.
  - rewrite elem_of_app, list_elem_of_singleton. tauto.
Qed.

Lemma mapGet_elem_of {V : Type} (m : list (Z * V)) k v :
  mapGet m k = Some v -> (k, v) ∈ m.
Proof.
  unfold mapGet. intros ([i e] & E & ->)%fmap_Some.
  apply list_find_Some in E as (Hi & <- & _). simpl.
  apply list_elem_of_lookup. exists i. by destruct e.
Qed.

Lemma addPointByDate_ok m p : byDateOk m -> byDateOk (addPointByDate m p).
Proof.
  intros [Hnd Hdates]. unfold addPointByDate. split.
  - rewrite mapKeys_mapSet. case_decide as Hk; [done|].
    apply NoDup_app. split_and!; [done| |apply NoDup_singleton].
    intros x Hx ->%list_elem_of_singleton. done.
  - intros k l q [Hin|Heq]%elem_of_mapSet Hq; [by eapply Hdates|].
    inversion Heq; subst k l.
    apply elem_of_app in Hq as [Hq|Hq]; [|by apply list_elem_of_singleton in Hq as ->].
    destruct (mapGet m (date p)) as [l|] eqn:E; simpl in Hq.
    + apply mapGet_elem_of in E. by eapply Hdates.
    + by apply elem_of_nil in Hq.
Qed.

Lemma pointsByDate_ok points : byDateOk (pointsByDate points).
Proof.
  unfold pointsByDate. induction points as [|p points IH] using rev_ind.
  - split; [apply NoDup_nil_2|]. intros k l p Hin. by apply elem_of_nil in Hin.
  - rewrite foldl_snoc. by apply addPointByDate_ok.
Qed.

Lemma mapKeys_pointsByDate points k :
  k ∈ mapKeys (pointsByDate points) -> k ∈ map date points.
Proof.
  unfold pointsByDate. induction points as [|p points IH] using rev_ind; [done|].
  rewrite foldl_snoc. unfold addPointByDate at 1. rewrite mapKeys_mapSet, map_app.
  rewrite elem_of_app. case_decide.
  - auto.
  - rewrite elem_of_app. simpl. intros [?|?]; auto.
Qed.

Lemma zeroFilledPoint_key m d v :
  byDateOk m ->
  date (zeroFilledPoint m d v) = d /\ version (zeroFilledPoint m d v) = v.
Proof.
  intros [_ Hdates]. unfold zeroFilledPoint.
  destruct (list_find _ _) as [[i ep]|] eqn:E; [|done]. simpl.
  apply list_find_Some in E as (Hi & Hv & _). split; [|done].
  destruct (mapGet m d) as [l|] eqn:Eg; simpl in Hi; [|done].
  apply mapGet_elem_of in Eg. eapply Hdates; [done|].
  apply list_elem_of_lookup. eauto.
Qed.

(** The output of the zero fill, read as (date, version) pairs: the dates
    of the sorted key list that are not before the boundary, each with all
    the kept versions in their order. *)
Lemma pointsWithZero_keys e m vs ds :
  byDateOk m ->
  map (fun p => (date p, version p)) (pointsWithZero e m vs ds) =
  flat_map (fun d => map (fun v => (d, v)) vs) (filter (fun d => e <= d) ds).
Proof.
  intros Hm. unfold pointsWithZero.
  induction ds as [|d ds IH]; [done|].
  simpl. rewrite map_app, IH, filter_cons.
  destruct (d <? e) eqn:E.
  - rewrite decide_False by lia. done.
  - rewrite decide_True by lia. simpl. f_equal.
    rewrite map_map. apply map_ext. intros v.
    by destruct (zeroFilledPoint_key m d v Hm) as [-> ->].
Qed.

Lemma elem_of_product (ds : list Z) (vs : list string) d v :
  (d, v) ∈ flat_map (fun d => map (fun v => (d, v)) vs) ds <-> d ∈ ds /\ v ∈ vs.
Proof.
  rewrite list_elem_of_In, in_flat_map. setoid_rewrite in_map_iff.
  rewrite !list_elem_of_In. split.
  - intros (d' & Hd & v' & Heq & Hv). inversion Heq; by subst.
  - intros [Hd Hv]. eauto.
Qed.

Lemma NoDup_product (ds : list Z) (vs : list string) :
  NoDup ds -> NoDup vs ->
  NoDup (flat_map (fun d => map (fun v => (d, v)) vs) ds).
Proof.
  intros Hds Hvs. induction Hds as [|d ds Hd Hds IH]; simpl; [apply NoDup_nil_2|].
  apply NoDup_app. split_and!; [|intros [d' v']|done].
  - rewrite map_fmap. apply NoDup_fmap_2; [|done]. by intros ?? [=].
  - rewrite map_fmap, list_elem_of_fmap, elem_of_product.
    intros (v & [= -> ->] & _) [? _]. done.
Qed.

Lemma filter_key_once {A B : Type} `{EqDecision B} (f : A -> B) (l : list A) k :
  NoDup (map f l) -> k ∈ map f l ->
  length (filter (fun x => f x = k) l) = 1%nat.
Proof.
  induction l as [|x l IH]; simpl; intros Hnd Hk; [by apply elem_of_nil in Hk|].
  apply NoDup_cons in Hnd as [Hx Hnd]. rewrite filter_cons.
  destruct (decide (f x = k)) as [<-|Hne].
  - simpl. f_equal. apply length_zero_iff_nil, elem_of_nil_inv.
    intros y [Hy Hin]%list_elem_of_filter. apply Hx. rewrite <- Hy.
    by apply (list_elem_of_fmap_2 f).
  - apply IH; [done|]. apply elem_of_cons in Hk as [?|?]; [congruence|done].
Qed.

Lemma size_list_to_set_le (l : list string) :
  (size (list_to_set (C := gset string) l) <= length l)%nat.
Proof.
  induction l as [|x l IH].
  - rewrite list_to_set_nil, size_empty. done.
  - rewrite list_to_set_cons, size_union_alt, size_singleton. simpl.
    assert (Hsub : list_to_set l ∖ {[x]} ⊆ list_to_set (C := gset string) l).
    { intros y Hy. apply elem_of_difference in Hy. tauto. }
    apply subseteq_size in Hsub. lia.
Qed.

Lemma map_vcVersion_addToWindow e vw p :
  map vcVersion (addToWindow e vw p) =
  if decide (e <= date p /\ version p ∉ map vcVersion vw)
  then map vcVersion vw ++ [version p]
  else map vcVersion vw.
Proof.
  unfold addToWindow. destruct (e <=? date p) eqn:Ee; cycle 1.
  { rewrite decide_False; [done|lia]. }
  destruct (list_find _ vw) as [[i ec]|] eqn:E.
  - apply list_find_Some in E as (Hi & He & _).
    rewrite decide_False.
    + rewrite !map_fmap, list_fmap_insert. simpl. apply list_insert_id.
      by rewrite list_lookup_fmap, Hi.
    + intros [_ Hnot]. apply Hnot. rewrite <- He.
      apply (list_elem_of_fmap_2 vcVersion), list_elem_of_lookup. eauto.
  - rewrite list_find_None, Forall_forall in E.
    rewrite decide_True; [by rewrite map_app|]. split; [lia|].
    intros (c & Hv & Hc)%list_elem_of_fmap. by apply (E c).
Qed.

(** The versions ranked are those with a point at or after the boundary. *)
Lemma versionsInWindow_versions e points v :
  v ∈ map vcVersion (versionsInWindow e points) <->
  exists p, p ∈ points /\ version p = v /\ e <= date p.
Proof.
  unfold versionsInWindow. induction points as [|p points IH] using rev_ind.
  - simpl. split; [by intros ?%elem_of_nil|]. by intros (p & ?%elem_of_nil & _).
  - rewrite foldl_snoc, map_vcVersion_addToWindow. case_decide as Hp.
    + rewrite elem_of_app, list_elem_of_singleton, IH. split.
      * intros [(q & Hq & Hv & He)| ->].
        -- exists q. rewrite elem_of_app. auto.
        -- exists p. rewrite elem_of_app, list_elem_of_singleton. tauto.
      * intros (q & [Hq| ->%list_elem_of_singleton]%elem_of_app & Hv & He); eauto.
    + rewrite IH. split.
      * intros (q & Hq & Hv & He). exists q. rewrite elem_of_app. auto.
      * intros (q & [Hq|Hq]%elem_of_app & Hv & He); [eauto|].
        apply list_elem_of_singleton in Hq as ->.
        apply IH. destruct (decide (version p ∈ map vcVersion
          (foldl (addToWindow e) [] points))) as [Hin|Hnot]; [by rewrite <- Hv|tauto].
Qed.

Lemma topVersions_zero e points v :
  v ∈ topVersions e points 0 <->
  exists p, p ∈ points /\ version p = v /\ e <= date p.
Proof.
  unfold topVersions. simpl. rewrite slice_zero, sortWith_Permutation.
  apply versionsInWindow_versions.
Qed.

Lemma length_topVersions e points n :
  0 < n -> (length (topVersions e points n) <= Z.to_nat n)%nat.
Proof. intros Hn. unfold topVersions. rewrite length_map. by apply length_slice_tail. Qed.

Lemma last_sorted_max (points : list HistoryPoint) lastPoint p :
  last points = Some lastPoint -> Sorted Z.le (map date points) ->
  p ∈ points -> date p <= date lastPoint.
Proof.
  intros [l ->]%last_Some Hs [Hp| ->%list_elem_of_singleton]%elem_of_app; [|lia].
  apply (Sorted_StronglySorted Z.le) in Hs. rewrite map_app in Hs.
  apply (StronglySorted_app_1_elem_of Z.le _ _ _ _ Hs).
  - by apply (list_elem_of_fmap_2 date).
  - simpl. left.
Qed.

Section FilterTopN.

Variable startOfDay : Z -> Z.

(** The (date, version) pairs of the result of [filterTopN]: the dates of
    [datesAscending] that are not before the boundary, in that order, each
    with every kept version in display order. *)
Lemma filterTopN_keys points n w lastPoint :
  last points = Some lastPoint ->
  let earliest := earliestAllowableDate startOfDay (date lastPoint) w in
  let top := topVersions earliest points n in
  map (fun p => (date p, version p)) (filterTopN startOfDay points n w) =
  flat_map (fun d => map (fun v => (d, v)) (keptVersions startOfDay points n w))
           (filter (fun d => earliest <= d)
                   (datesAscending (pointsByDate (filteredPoints top points)))).
Proof.
  intros Hlast. unfold filterTopN, keptVersions. rewrite Hlast. simpl.
  apply pointsWithZero_keys, pointsByDate_ok.
Qed.

Lemma datesAscending_NoDup points : NoDup (datesAscending (pointsByDate points)).
Proof.
  unfold datesAscending, defaultSort. rewrite sortWith_Permutation.
  apply pointsByDate_ok.
Qed.

Lemma filterTopN_keys_NoDup points n w :
  NoDup (map (fun p => (date p, version p)) (filterTopN startOfDay points n w)).
Proof.
  destruct (last points) as [lastPoint|] eqn:Hlast.
  - rewrite (filterTopN_keys _ _ _ _ Hlast). apply NoDup_product.
    + apply NoDup_filter, datesAscending_NoDup.
    + unfold keptVersions. rewrite Hlast. apply topVersionsInOrder_NoDup.
  - unfold filterTopN. rewrite Hlast. apply NoDup_nil_2.
Qed.

(** C6: zero-fill completeness.  For every date present in the result of
    [filterTopN] and every kept version, the result holds exactly one
    point for that (date, version) pair. *)
Theorem filterTopN_zero_fill points n w d v :
  d ∈ map date (filterTopN startOfDay points n w) ->
  v ∈ keptVersions startOfDay points n w ->
  length (filter (fun p => date p = d /\ version p = v)
                 (filterTopN startOfDay points n w)) = 1%nat.
Proof.
  intros Hd Hv.
  rewrite (list_filter_iff _ (fun p => (date p, version p) = (d, v)))
    by (intros p; split; [by intros [-> ->]|by intros [= -> ->]]).
  apply filter_key_once; [apply filterTopN_keys_NoDup|].
  destruct (last points) as [lastPoint|] eqn:Hlast; cycle 1.
  { unfold filterTopN in Hd. rewrite Hlast in Hd. by apply elem_of_nil in Hd. }
  apply list_elem_of_fmap in Hd as (p & -> & Hp).
  apply (list_elem_of_fmap_2 (fun p => (date p, version p))) in Hp.
  rewrite <- map_fmap in Hp. rewrite (filterTopN_keys _ _ _ _ Hlast) in *.
  apply elem_of_product in Hp as [Hp _]. by apply elem_of_product.
Qed.

(** C7: for a point list sorted by date and a positive [n], the result of
    [filterTopN] mentions at most [n] distinct versions, and the date of
    every point of the result lies between [earliestAllowableDate], the
    start of the local day of the latest date minus the window, and the
    latest date.  This holds for every window. *)
Theorem filterTopN_bounds points n w lastPoint :
  last points = Some lastPoint ->
  Sorted Z.le (map date points) ->
  0 < n ->
  (size (list_to_set (C := gset string)
           (map version (filterTopN startOfDay points n w))) <= Z.to_nat n)%nat /\
  Forall (fun p => earliestAllowableDate startOfDay (date lastPoint) w <= date p
                   /\ date p <= date lastPoint)
         (filterTopN startOfDay points n w).
Proof.
  intros Hlast Hsorted Hn.
  pose proof (filterTopN_keys points n w lastPoint Hlast) as Hkeys. simpl in Hkeys.
  set (earliest := earliestAllowableDate startOfDay (date lastPoint) w) in *.
  set (top := topVersions earliest points n) in *.
  assert (Hout : forall p, p ∈ filterTopN startOfDay points n w ->
            version p ∈ top /\ earliest <= date p /\ date p ∈ map date points).
  { intros p Hp.
    apply (list_elem_of_fmap_2 (fun p => (date p, version p))) in Hp.
    rewrite <- map_fmap, Hkeys in Hp. apply elem_of_product in Hp as [Hd Hv].
    apply list_elem_of_filter in Hd as [He Hd].
    unfold keptVersions in Hv. rewrite Hlast in Hv.
    apply topVersionsInOrder_spec in Hv as [Hv _].
    split_and!; [done..|].
    unfold datesAscending, defaultSort in Hd. rewrite sortWith_Permutation in Hd.
    apply mapKeys_pointsByDate in Hd.
    apply list_elem_of_fmap in Hd as (q & -> & Hq).
    apply list_elem_of_filter in Hq as [_ Hq].
    by apply (list_elem_of_fmap_2 date). }
  split.
  - etrans; [|apply (length_topVersions earliest points n Hn)].
    etrans; [|apply size_list_to_set_le].
    apply subseteq_size. intros v.
    rewrite !elem_of_list_to_set. intros (p & -> & Hp)%list_elem_of_fmap.
    by apply Hout.
  - apply Forall_forall. intros p Hp.
    destruct (Hout p Hp) as (_ & He & Hd). split; [done|].
    apply list_elem_of_fmap in Hd as (q & -> & Hq).
    by apply (last_sorted_max points lastPoint q).
Qed.

(** C3, as the code has it: a zero [maxVersionsShown] is falsy and switches
    the filter off, so the component keeps the points as they are; and
    [filterTopN] called with [n = 0] keeps every version that has a point
    at or after the boundary, because [slice(-0)] is the whole ranking.
    The result is empty for an empty input. *)
Theorem filterTopN_zero points n w maxDaysShown v :
  topRawDataPoints startOfDay points maxDaysShown (Some 0) = points /\
  filterTopN startOfDay [] n w = [] /\
  (v ∈ keptVersions startOfDay points 0 w <->
   exists lastPoint p,
     last points = Some lastPoint /\ p ∈ points /\ version p = v /\
     earliestAllowableDate startOfDay (date lastPoint) w <= date p).
Proof.
  split_and!; [done..|].
  unfold keptVersions. destruct (last points) as [lastPoint|].
  - rewrite topVersionsInOrder_spec, topVersions_zero. split.
    + intros [(p & Hp & Hv & He) _]. eauto 10.
    + intros (? & p & [= <-] & Hp & Hv & He). split; [eauto|].
      rewrite <- Hv. by apply (list_elem_of_fmap_2 version).
  - split; [by intros ?%elem_of_nil|]. by intros (? & ? & ? & _).
Qed.

End FilterTopN.

(** The second date has no point for version a: one zero point is added. *)
Lemma filterTopN_zero_fill_witness :
  let points := [mkPoint 1700000000000 "a" (Num 10);
                 mkPoint 1700000000000 "b" (Num 30);
                 mkPoint 1700086400000 "b" (Num 5)] in
  filterTopN utcStartOfDay points 2 30 =
    [mkPoint 1700000000000 "a" (Num 10); mkPoint 1700000000000 "b" (Num 30);
     mkPoint 1700086400000 "a" (Num 0); mkPoint 1700086400000 "b" (Num 5)] /\
  length (filter (fun p => date p = 1700086400000 /\ version p = "a")
                 (filterTopN utcStartOfDay points 2 30)) = 1%nat.
Proof.
  split; [vm_compute; reflexivity|].
  apply (filterTopN_zero_fill utcStartOfDay).
  - apply (bool_decide_unpack _). vm_compute. exact I.
  - apply (bool_decide_unpack _). vm_compute. exact I.
Defined.

(** Three versions, two kept, on a host in UTC. *)
Lemma filterTopN_bounds_witness :
  let points := [mkPoint 1700000000000 "a" (Num 10);
                 mkPoint 1700000000000 "b" (Num 30);
                 mkPoint 1700086400000 "c" (Num 5)] in
  (size (list_to_set (C := gset string)
           (map version (filterTopN utcStartOfDay points 2 30))) <= Z.to_nat 2)%nat /\
  Forall (fun p => earliestAllowableDate utcStartOfDay 1700086400000 30 <= date p
                   /\ date p <= 1700086400000)
         (filterTopN utcStartOfDay points 2 30).
Proof.
  apply (filterTopN_bounds utcStartOfDay
           [mkPoint 1700000000000 "a" (Num 10);
            mkPoint 1700000000000 "b" (Num 30);
            mkPoint 1700086400000 "c" (Num 5)]
           2 30 (mkPoint 1700086400000 "c" (Num 5))).
  - reflexivity.
  - simpl. repeat constructor; lia.
  - lia.
Defined.

(** With [n = 0] the only version is kept and its point is returned. *)
Lemma filterTopN_zero_keeps_version :
  keptVersions utcStartOfDay [mkPoint 1700000000000 "a" (Num 10)] 0 30 = ["a"] /\
  filterTopN utcStartOfDay [mkPoint 1700000000000 "a" (Num 10)] 0 30
  = [mkPoint 1700000000000 "a" (Num 10)].
Proof. split; vm_compute; reflexivity. Qed.

(** C4 fails on the code: [datesAscending] is sorted by [sort()] without a
    comparator, which compares the dates as strings.  Two dates with a
    different number of digits come out in descending order. *)
Theorem filterTopN_dates_sorted_as_strings :
  filterTopN utcStartOfDay
    [mkPoint 999999999999 "a" (Num 1); mkPoint 1000000000000 "a" (Num 2)] 1 30
  = [mkPoint 1000000000000 "a" (Num 2); mkPoint 999999999999 "a" (Num 1)].
Proof. vm_compute. reflexivity. Qed.

(** ** calculateDateTicks *)

Section CalculateDateTicks.

Variable startOfDay : Z -> Z.

Lemma doubleTickInterval_more_fuel dur m : forall fuel fuel' t r,
  doubleTickInterval fuel dur m t = Some r -> (fuel <= fuel')%nat ->
  doubleTickInterval fuel' dur m t = Some r.
Proof.
  induction fuel as [|fuel IH]; intros fuel' t r H Hle; [done|].
  destruct fuel' as [|fuel']; [lia|]. simpl in *.
  destruct (dur / t >? m); [|done]. apply IH; [done|lia].
Qed.

(** For a non-negative bound the loop ends: [k + 1] turns are enough once
    [tickInterval * 2 ^ k] is above the duration. *)
Lemma doubleTickInterval_ends dur m : forall (k : nat) t,
  0 <= m -> 0 < t -> dur < t * 2 ^ Z.of_nat k ->
  exists r, doubleTickInterval (S k) dur m t = Some r.
Proof.
  induction k as [|k IH]; intros t Hm Ht Hdur.
  - simpl. assert (dur / t <= 0) by (apply Z.lt_succ_r, Z.div_lt_upper_bound; lia).
    destruct (dur / t >? m) eqn:E; [lia|eauto].
  - cbn [doubleTickInterval]. destruct (dur / t >? m); [|eauto].
    apply IH; [lia..|]. rewrite Nat2Z.inj_succ, Z.pow_succ_r in Hdur; lia.
Qed.

Lemma doubleTickInterval_returns dur m t :
  0 <= m -> 0 < t ->
  exists r, doubleTickInterval (S (Z.to_nat (Z.log2 dur + 1))) dur m t = Some r.
Proof.
  intros Hm Ht. apply doubleTickInterval_ends; [done..|].
  rewrite Z2Nat.id by (pose proof (Z.log2_nonneg dur); lia).
  destruct (Z_lt_le_dec 0 dur) as [Hpos|Hneg].
  - pose proof (Z.log2_spec dur Hpos) as [_ Hlt].
    replace (Z.succ (Z.log2 dur)) with (Z.log2 dur + 1) in Hlt by lia. nia.
  - pose proof (Z.pow_pos_nonneg 2 (Z.log2 dur + 1) ltac:(lia)
                  ltac:(pose proof (Z.log2_nonneg dur); lia)). nia.
Qed.

(** With a negative bound and dates in ascending order the loop never
    ends. *)
Lemma doubleTickInterval_diverges dur m : forall fuel t,
  0 <= dur -> m < 0 -> 0 < t -> doubleTickInterval fuel dur m t = None.
Proof.
  induction fuel as [|fuel IH]; intros t Hdur Hm Ht; [done|]. simpl.
  pose proof (Z.div_pos dur t Hdur Ht).
  destruct (dur / t >? m) eqn:E; [|lia]. apply IH; lia.
Qed.

(** For every date list and every [maxTicks] that is not negative, the
    function returns, given enough fuel. *)
Lemma calculateDateTicks_returns dates maxTicks :
  0 <= maxTicks ->
  exists fuel ticks, calculateDateTicks startOfDay fuel dates maxTicks = Some ticks.
Proof.
  intros Hk. unfold calculateDateTicks.
  destruct (maxTicks =? 0) eqn:E0; [by exists O; eauto|].
  destruct (maxTicks =? 1) eqn:E1; [by exists O; eauto|].
  destruct (maxTicks =? 2); [by exists O; eauto|].
  destruct (head dates) as [first|]; [|by exists O; eauto].
  destruct (last dates) as [last|]; [|by exists O; eauto].
  destruct (doubleTickInterval_returns (last - first) (maxTicks - 1)
              (7 * (24 * 60 * 60 * 1000))) as [r Hr]; [lia..|].
  eexists _, _. by rewrite Hr.
Qed.

Lemma scanDate_keeps tickInterval dates : forall st d,
  d ∈ fst st -> d ∈ fst (foldl (scanDate startOfDay tickInterval) st dates).
Proof.
  induction dates as [|x dates IH]; intros st d Hd; [done|]. simpl.
  apply IH. unfold scanDate. destruct (snd st <=? x); [|done]. simpl.
  unfold setAdd. case_bool_decide; [done|]. apply elem_of_app. by left.
Qed.

(** X21: the first date is a tick whenever [maxTicks] is not zero. *)
Lemma calculateDateTicks_first fuel first dates maxTicks ticks :
  maxTicks <> 0 ->
  calculateDateTicks startOfDay fuel (first :: dates) maxTicks = Some ticks ->
  Some first ∈ ticks.
Proof.
  intros Hk. unfold calculateDateTicks.
  destruct (maxTicks =? 0) eqn:E0; [lia|].
  destruct (maxTicks =? 1); [intros [= <-]; left|].
  destruct (maxTicks =? 2); [intros [= <-]; left|].
  cbn [head]. destruct (last (first :: dates)) as [last|] eqn:El; cycle 1.
  { by apply last_None in El. }
  destruct (doubleTickInterval _ _ _ _) as [tickInterval|]; [|done].
  intros [= <-]. apply (list_elem_of_fmap_2 Some).
  apply (scanDate_keeps tickInterval (first :: dates) ([first], _)). left.
Qed.

Lemma doubleTickInterval_ge dur m : forall fuel t r,
  0 < t -> doubleTickInterval fuel dur m t = Some r -> t <= r.
Proof.
  induction fuel as [|fuel IH]; intros t r Ht H; [done|]. simpl in H.
  destruct (dur / t >? m).
  - apply IH in H; lia.
  - inversion H. lia.
Qed.

(** While the dates are scanned the ticks stay strictly increasing and
    below the next boundary, provided the local day of a date started less
    than [tickInterval] before it. *)
Lemma scanDate_increasing tickInterval dates :
  (forall d, d < startOfDay d + tickInterval) ->
  forall st,
    StronglySorted Z.lt (fst st) -> Forall (fun x => x < snd st) (fst st) ->
    StronglySorted Z.lt (fst (foldl (scanDate startOfDay tickInterval) st dates)).
Proof.
  intros Hday. induction dates as [|d dates IH]; intros [ticks nextTick] Hs Hlt; [done|].
  simpl in *. apply IH; unfold scanDate; simpl;
    destruct (nextTick <=? d) eqn:E; simpl; try done.
  - unfold setAdd. case_bool_decide; [done|].
    apply StronglySorted_app. split_and!; [|done|repeat constructor].
    intros x1 x2 Hx1 Hx2. apply list_elem_of_singleton in Hx2 as ->.
    rewrite Forall_forall in Hlt. specialize (Hlt x1 Hx1). lia.
  - unfold fromDayStart. unfold setAdd. rewrite Forall_forall in *.
    case_bool_decide; intros x Hx; specialize (Hday d).
    + specialize (Hlt x Hx). lia.
    + apply elem_of_app in Hx as [Hx| ->%list_elem_of_singleton]; [|lia].
      specialize (Hlt x Hx). lia.
Qed.

(** X22: apart from [maxTicks == 2], the ticks of a date list that is not
    empty are strictly increasing, on a host where the local day of a date
    started less than a week before it. *)
Lemma calculateDateTicks_increasing fuel first dates maxTicks ticks :
  (forall d, d - startOfDay d < 7 * (24 * 60 * 60 * 1000)) ->
  maxTicks <> 2 ->
  calculateDateTicks startOfDay fuel (first :: dates) maxTicks = Some ticks ->
  exists ts, ticks = map Some ts /\ StronglySorted Z.lt ts.
Proof.
  intros Hday Hk. unfold calculateDateTicks.
  destruct (maxTicks =? 0); [intros [= <-]; exists []; split; [done|constructor]|].
  destruct (maxTicks =? 1);
    [intros [= <-]; exists [first]; split; [done|repeat constructor]|].
  destruct (maxTicks =? 2) eqn:E2; [lia|].
  cbn [head]. destruct (last (first :: dates)) as [last|] eqn:El; cycle 1.
  { by apply last_None in El. }
  destruct (doubleTickInterval _ _ _ _) as [tickInterval|] eqn:Et; [|done].
  apply doubleTickInterval_ge in Et; [|lia].
  intros [= <-]. eexists. split; [done|].
  apply (scanDate_increasing tickInterval (first :: dates)
           ltac:(intros d; specialize (Hday d); lia) ([first], _)); simpl.
  - repeat constructor.
  - repeat constructor. unfold fromDayStart. specialize (Hday first). lia.
Qed.

(** C2, as the code has it.  [maxTicks == 0] gives the empty list for
    every date list; on a date list that is not empty [maxTicks == 1]
    gives [[dates[0]]] and [maxTicks == 2] gives [[dates[0], dates[last]]].
    On the empty date list the result is empty for [maxTicks == 0] only:
    it is [[undefined, undefined]] for 2 and [[undefined]] for every
    other [maxTicks].  The component returns before the call when there is
    no point. *)
Theorem calculateDateTicks_base_cases fuel d dates k :
  calculateDateTicks startOfDay fuel dates 0 = Some [] /\
  calculateDateTicks startOfDay fuel (d :: dates) 1 = Some [Some d] /\
  calculateDateTicks startOfDay fuel (d :: dates) 2
    = Some [Some d; Some (default d (last dates))] /\
  calculateDateTicks startOfDay fuel [] k
    = Some (if k =? 0 then [] else if k =? 2 then [None; None] else [None]).
Proof.
  split_and!; [done..| |].
  - unfold calculateDateTicks. simpl. rewrite last_cons. by destruct (last dates).
  - unfold calculateDateTicks. simpl.
    destruct (k =? 0); [done|]. destruct (k =? 1) eqn:E1.
    + apply Z.eqb_eq in E1 as ->. done.
    + by destruct (k =? 2).
Qed.

End CalculateDateTicks.

(** On the empty date list a nonzero [maxTicks] gives [undefined] ticks. *)
Lemma calculateDateTicks_empty_list_undefined :
  calculateDateTicks utcStartOfDay 0 [] 1 = Some [None] /\
  calculateDateTicks utcStartOfDay 0 [] 2 = Some [None; None] /\
  calculateDateTicks utcStartOfDay 0 [] 6 = Some [None].
Proof. split_and!; reflexivity. Qed.

(** C5 fails on the code.  A first date late in its day leaves room for one
    tick more than [maxTicks]: the boundaries are counted from the start of
    the day while the duration is counted from the date.  With
    [maxTicks == 2] and a single date the two ticks are equal. *)
Theorem calculateDateTicks_exceeds_maxTicks :
  calculateDateTicks utcStartOfDay 1
    [82800000; 604800000; 1209600000; 1814400000] 3
  = Some [Some 82800000; Some 604800000; Some 1209600000; Some 1814400000] /\
  calculateDateTicks utcStartOfDay 0 [1700000000000] 2
  = Some [Some 1700000000000; Some 1700000000000].
Proof. split; vm_compute; reflexivity. Qed.

(** * The data flow of the component *)

(** ** More on the rows of the chart *)

Lemma map_rowDate_addMeasurePoint v rows p :
  map rowDate (addMeasurePoint v rows p) =
  if decide (version p = v /\ date p ∉ map rowDate rows)
  then map rowDate rows ++ [date p]
  else map rowDate rows.
Proof.
  unfold addMeasurePoint. case_bool_decide as Hv; cycle 1.
  { rewrite decide_False; [done|tauto]. }
  destruct (list_find _ rows) as [[i r]|] eqn:E.
  - apply list_find_Some in E as (Hi & Hr & _).
    rewrite decide_False.
    + rewrite !map_fmap, list_fmap_insert. simpl. apply list_insert_id.
      by rewrite list_lookup_fmap, Hi.
    + intros [_ Hnot]. apply Hnot. rewrite <- Hr.
      apply (list_elem_of_fmap_2 rowDate), list_elem_of_lookup. eauto.
  - rewrite list_find_None, Forall_forall in E.
    rewrite decide_True; [by rewrite map_app|]. split; [done|].
    intros (r & Hr & Hin)%list_elem_of_fmap. by apply (E r).
Qed.

Lemma rowDates_inner v points : forall rows,
  NoDup (map rowDate rows) ->
  NoDup (map rowDate (foldl (addMeasurePoint v) rows points)) /\
  forall d, d ∈ map rowDate (foldl (addMeasurePoint v) rows points) <->
            d ∈ map rowDate rows \/ exists p, p ∈ points /\ version p = v /\ date p = d.
Proof.
  induction points as [|p points IH] using rev_ind; intros rows Hnd.
  - simpl. split; [done|]. intros d. split; [tauto|].
    intros [?|(p & ?%elem_of_nil & _)]; done.
  - rewrite foldl_snoc, map_rowDate_addMeasurePoint.
    destruct (IH rows Hnd) as [IHnd IHin]. case_decide as Hp.
    + destruct Hp as [Hv Hnew]. split.
      * apply NoDup_app. split_and!; [done| |apply NoDup_singleton].
        intros x Hx Hx'. apply list_elem_of_singleton in Hx' as ->. done.
      * intros d. rewrite elem_of_app, list_elem_of_singleton, IHin. split.
        -- intros [[?|(q & Hq & Hqv & Hqd)]| ->]; [by left| |].
           ++ right. exists q. rewrite elem_of_app. auto.
           ++ right. exists p. rewrite elem_of_app, list_elem_of_singleton. auto.
        -- intros [?|(q & [Hq|Hq]%elem_of_app & Hqv & Hqd)]; [by left; left| |].
           ++ left; right. eauto.
           ++ apply list_elem_of_singleton in Hq as ->. by right.
    + split; [done|]. intros d. rewrite IHin. split.
      * intros [?|(q & Hq & Hqv & Hqd)]; [by left|].
        right. exists q. rewrite elem_of_app. auto.
      * intros [?|(q & [Hq|Hq]%elem_of_app & Hqv & Hqd)]; [by left|right; eauto|].
        apply list_elem_of_singleton in Hq as ->.
        apply IHin. destruct (decide (date p ∈ map rowDate
          (foldl (addMeasurePoint v) rows points))) as [Hin|Hnot]; [by subst d|tauto].
Qed.

Lemma rowDates_outer points vs : forall rows,
  NoDup (map rowDate rows) ->
  let rows' := foldl (fun rows v => foldl (addMeasurePoint v) rows points) rows vs in
  NoDup (map rowDate rows') /\
  forall d, d ∈ map rowDate rows' <->
            d ∈ map rowDate rows \/ exists p, p ∈ points /\ version p ∈ vs /\ date p = d.
Proof.
  induction vs as [|v vs IH] using rev_ind; intros rows Hnd; simpl.
  - split; [done|]. intros d. split; [tauto|].
    intros [?|(p & _ & ?%elem_of_nil & _)]; done.
  - rewrite foldl_snoc. destruct (IH rows Hnd) as [IHnd IHin].
    destruct (rowDates_inner v points _ IHnd) as [Hnd' Hin']. split; [done|].
    intros d. rewrite Hin', IHin. setoid_rewrite elem_of_app.
    setoid_rewrite list_elem_of_singleton. split.
    + intros [[?|(q & ? & ? & ?)]|(q & ? & ? & ?)]; eauto 10.
    + intros [?|(q & ? & [?|?] & ?)]; eauto 10.
Qed.

Lemma rowOf_elem_of rows row :
  NoDup (map rowDate rows) -> row ∈ rows -> rowOf rows (rowDate row) = Some row.
Proof.
  intros Hnd [i Hi]%list_elem_of_lookup. unfold rowOf.
  rewrite (proj2 (list_find_Some _ rows i row)); [done|].
  split_and!; [done..|]. intros j r Hj Hlt Hr.
  assert (i = j); [|lia].
  apply (NoDup_lookup _ _ _ (rowDate row) Hnd).
  - by rewrite map_fmap, list_lookup_fmap, Hi.
  - by rewrite map_fmap, list_lookup_fmap, Hj, <- Hr.
Qed.

Lemma rowDates_data points :
  NoDup (map rowDate (data points)) /\
  forall d, d ∈ map rowDate (data points) <-> d ∈ map date points.
Proof.
  unfold data.
  destruct (rowDates_outer points (allVersionsArr points) [] (NoDup_nil_2))
    as [Hnd Hin].
  split; [done|]. intros d. rewrite Hin. split.
  - intros [?%elem_of_nil|(p & Hp & _ & <-)]; [done|].
    by apply (list_elem_of_fmap_2 date).
  - intros (p & -> & Hp)%list_elem_of_fmap. right. exists p.
    split_and!; [done| |done]. apply elem_of_allVersionsArr.
    by apply (list_elem_of_fmap_2 version).
Qed.

Lemma row_lookup_data points row v :
  row ∈ data points ->
  v <> "__proto__" ->
  versionCounts row !! v = lastCount (rowDate row) v points.
Proof.
  intros Hrow Hproto. rewrite <- countIn_data by done. unfold countIn.
  by rewrite (rowOf_elem_of _ _ (proj1 (rowDates_data points)) Hrow).
Qed.

(** X1: the rows of the chart have distinct dates, and there is a row for a
    date exactly when some point has that date. *)
Theorem data_row_dates points :
  NoDup (map rowDate (data points)) /\
  forall d, d ∈ map rowDate (data points) <-> d ∈ map date points.
Proof. apply rowDates_data. Qed.

(** X2: in every row of the chart, the entry of a version other than
    [__proto__] is the count of the last point of the list with the date of
    the row and that version, and such a version without such a point has
    no entry of its own in the row. *)
Theorem data_row_counts points row v :
  row ∈ data points ->
  v <> "__proto__" ->
  versionCounts row !! v = lastCount (rowDate row) v points.
Proof. apply row_lookup_data. Qed.

(** The theorem at the row of date 1 of a list with a repeated pair. *)
Lemma data_row_counts_witness :
  let points := [mkPoint 1 "a" (Num 5); mkPoint 2 "a" (Num 6); mkPoint 1 "a" (Num 7)] in
  let row := mkRow 1 {["a" := Num 7]} in
  row ∈ data points /\ versionCounts row !! "a" = Some (Num 7).
Proof.
  assert (Hrow : mkRow 1 {["a" := Num 7]}
                 ∈ data [mkPoint 1 "a" (Num 5); mkPoint 2 "a" (Num 6); mkPoint 1 "a" (Num 7)]).
  { vm_compute. left. }
  split; [exact Hrow|].
  exact (data_row_counts _ _ "a" Hrow ltac:(discriminate)).
Defined.

(** ** More on transformToPercentage *)

(** X3: after the first loop of [transformToPercentage] the table of totals
    has an entry exactly for the dates of the list, and the entry of a date
    is the sum of the counts of its points, added from the left to 0. *)
Theorem totalCountByDate_sums points d :
  totalCountByDate points !! d =
  if decide (d ∈ map date points) then Some (sumNumbers (countsOn d points)) else None.
Proof. apply totalCountByDate_lookup. Qed.

Lemma foldl_numAdd_nonneg l : forall a s,
  (0 <= a)%Q ->
  Forall (fun x => exists c, x = Num c /\ (0 <= c)%Q) l ->
  foldl numAdd (Num a) l = Num s ->
  (a <= s)%Q /\ forall c, Num c ∈ l -> (c <= s)%Q.
Proof.
  induction l as [|x l IH]; intros a s Ha Hl H.
  - inversion H; subst. split; [apply Qle_refl|]. by intros c ?%elem_of_nil.
  - apply Forall_cons in Hl as [(b & -> & Hb) Hl]. simpl in H.
    destruct (IH (a + b)%Q s) as [Hs Hin]; [|done..|].
    { rewrite <- (Qplus_0_r 0). by apply Qplus_le_compat. }
    split.
    + eapply Qle_trans; [|exact Hs].
      rewrite <- (Qplus_0_r a) at 1. apply Qplus_le_compat; [apply Qle_refl|done].
    + intros c [Hc|Hc]%elem_of_cons; [|by apply Hin].
      inversion Hc; subst c. eapply Qle_trans; [|exact Hs].
      rewrite <- (Qplus_0_l b) at 1. apply Qplus_le_compat; [done|apply Qle_refl].
Qed.

(** X4: when the counts of a date are not negative and their sum is not
    zero, every output count of that date is a fraction between 0 and 1. *)
Theorem transformToPercentage_unit_interval points i p t :
  points !! i = Some p ->
  Forall (fun x => exists c, x = Num c /\ (0 <= c)%Q) (countsOn (date p) points) ->
  sumNumbers (countsOn (date p) points) = Num t ->
  ~ (t == 0)%Q ->
  exists p' r,
    transformToPercentage points !! i = Some p' /\ count p' = Num r /\
    (0 <= r)%Q /\ (r <= 1)%Q.
Proof.
  intros Hi Hnn Hsum Ht.
  assert (Hp : p ∈ points) by (apply list_elem_of_lookup; eauto).
  pose proof (countsOn_elem_of _ _ _ Hp eq_refl) as Hc.
  rewrite Forall_forall in Hnn. destruct (Hnn _ Hc) as (c & Ec & Hc0).
  destruct (foldl_numAdd_nonneg (countsOn (date p) points) 0 t) as [Ht0 Hle];
    [apply Qle_refl|by apply Forall_forall|done|].
  assert (Hct : (c <= t)%Q) by (apply Hle; by rewrite <- Ec).
  assert (Htpos : (0 < t)%Q).
  { apply Qle_lteq in Ht0 as [?|Heq]; [done|]. destruct Ht. by symmetry. }
  eexists _, (c / t)%Q. split_and!.
  - unfold transformToPercentage. change (map ?f points) with (f <$> points).
    rewrite list_lookup_fmap, Hi. simpl. reflexivity.
  - simpl. rewrite totalCountByDate_lookup, decide_True, Hsum, Ec.
    + by apply numDiv_finite.
    + by apply (list_elem_of_fmap_2 date).
  - apply Qle_shift_div_l; [done|]. by rewrite Qmult_0_l.
  - apply Qle_shift_div_r; [done|]. by rewrite Qmult_1_l.
Qed.

(** The theorem at the first of two points of one date. *)
Lemma transformToPercentage_unit_interval_witness :
  let points := [mkPoint 1 "a" (Num 10); mkPoint 1 "b" (Num 30)] in
  exists p' r,
    transformToPercentage points !! 0%nat = Some p' /\ count p' = Num r /\
    (0 <= r)%Q /\ (r <= 1)%Q.
Proof.
  apply (transformToPercentage_unit_interval
           [mkPoint 1 "a" (Num 10); mkPoint 1 "b" (Num 30)] 0
           (mkPoint 1 "a" (Num 10)) (0 + 10 + 30) eq_refl).
  - repeat constructor; eexists; (split; [reflexivity|]); unfold Qle; simpl; lia.
  - reflexivity.
  - unfold Qeq. simpl. lia.
Defined.

(** ** More on filterTopN *)

Lemma mapGet_mapSet {V : Type} (m : list (Z * V)) k v k' :
  mapGet (mapSet m k v) k' = if decide (k = k') then Some v else mapGet m k'.
Proof.
  unfold mapGet, mapSet.
  destruct (list_find (fun e => fst e = k) m) as [[i e]|] eqn:E.
  - pose proof E as (Hi & He & _)%list_find_Some.
    rewrite (list_find_insert_key _ m i e (k, v) Hi) by (simpl; by rewrite He).
    destruct (decide (k = k')) as [<-|Hne].
    + rewrite E. simpl. by rewrite decide_True.
    + destruct (list_find (fun e => fst e = k') m) as [[j e']|] eqn:E'; [|done].
      simpl. destruct (decide (j = i)) as [->|]; [|done].
      apply list_find_Some in E' as (Hj & He' & _). congruence.
  - destruct (decide (k = k')) as [<-|Hne].
    + rewrite (list_find_app_r _ _ _ E). simpl. by rewrite decide_True.
    + destruct (list_find (fun e => fst e = k') m) as [[j e']|] eqn:E'.
      * by rewrite (list_find_app_l _ _ _ _ _ E').
      * rewrite (list_find_app_r _ _ _ E'). simpl. by rewrite decide_False.
Qed.

Lemma filter_date_absent d (points : list HistoryPoint) :
  d ∉ map date points -> filter (fun p => date p = d) points = [].
Proof.
  intros Hd. apply elem_of_nil_inv. intros p [Hp Hin]%list_elem_of_filter.
  apply Hd. rewrite <- Hp. by apply (list_elem_of_fmap_2 date).
Qed.

(** The map built by the loop files under each date the points of that
    date, in list order. *)
Lemma mapGet_pointsByDate points d :
  mapGet (pointsByDate points) d =
  if decide (d ∈ map date points) then Some (filter (fun p => date p = d) points) else None.
Proof.
  unfold pointsByDate. induction points as [|p points IH] using rev_ind; [done|].
  rewrite foldl_snoc. unfold addPointByDate at 1.
  rewrite mapGet_mapSet, map_app, filter_app, filter_cons, filter_nil. simpl.
  destruct (decide (date p = d)) as [<-|Hne].
  - rewrite decide_True by (apply elem_of_app; right; left).
    rewrite IH. destruct (decide (date p ∈ map date points)) as [|Hnot]; [done|].
    by rewrite (filter_date_absent _ _ Hnot).
  - rewrite app_nil_r, IH. destruct (decide (d ∈ map date points)) as [Hin|Hnot].
    + rewrite decide_True; [done|]. apply elem_of_app. by left.
    + rewrite decide_False; [done|].
      intros [?|?%list_elem_of_singleton]%elem_of_app; congruence.
Qed.

Lemma list_find_head_filter {A : Type} (P : A -> Prop) `{!forall x, Decision (P x)}
    (l : list A) :
  snd <$> list_find P l = head (filter P l).
Proof.
  induction l as [|x l IH]; [done|]. simpl. rewrite filter_cons.
  destruct (decide (P x)); [done|]. rewrite <- IH.
  by destruct (list_find P l) as [[i y]|].
Qed.

(** The point pushed for a date and a kept version is the first point of
    the list with that date and that version, or a zero count when there is
    none. *)
Lemma zeroFilledPoint_first top points d v :
  v ∈ top ->
  zeroFilledPoint (pointsByDate (filteredPoints top points)) d v =
  match firstPoint d v points with
  | Some p => p
  | None => {| date := d; version := v; count := Num 0 |}
  end.
Proof.
  intros Hv. unfold zeroFilledPoint, firstPoint.
  assert (Hl : default [] (mapGet (pointsByDate (filteredPoints top points)) d)
               = filter (fun p => date p = d) (filteredPoints top points)).
  { rewrite mapGet_pointsByDate. case_decide as Hd; [done|].
    by rewrite (filter_date_absent _ _ Hd). }
  rewrite Hl.
  assert (Hf : filter (fun p => version p = v)
                 (filter (fun p => date p = d) (filteredPoints top points))
               = filter (fun p => date p = d /\ version p = v) points).
  { unfold filteredPoints. rewrite !list_filter_filter.
    apply list_filter_iff. intros p. split; [tauto|].
    intros [Hd Hpv]. rewrite Hpv. tauto. }
  rewrite <- Hf, <- list_find_head_filter.
  destruct (list_find _ _) as [[i ep]|]; [|done]. simpl. by destruct ep.
Qed.

Lemma elem_of_pointsWithZero e m vs ds p :
  p ∈ pointsWithZero e m vs ds ->
  exists d v, d ∈ ds /\ e <= d /\ v ∈ vs /\ p = zeroFilledPoint m d v.
Proof.
  unfold pointsWithZero. rewrite list_elem_of_In, in_flat_map.
  intros (d & Hd & Hp). destruct (d <? e) eqn:E; [done|].
  apply in_map_iff in Hp as (v & <- & Hv).
  exists d, v. rewrite !list_elem_of_In. split_and!; [done|lia|done..].
Qed.

Lemma topVersions_in_window e points n v :
  v ∈ topVersions e points n ->
  exists p, p ∈ points /\ version p = v /\ e <= date p.
Proof.
  unfold topVersions. intros (c & -> & Hc)%list_elem_of_fmap.
  apply slice_subseteq in Hc. rewrite sortWith_Permutation in Hc.
  apply versionsInWindow_versions. by apply (list_elem_of_fmap_2 vcVersion).
Qed.

Lemma mapKeys_pointsByDate_2 points d :
  d ∈ map date points -> d ∈ mapKeys (pointsByDate points).
Proof.
  intros Hd. pose proof (mapGet_pointsByDate points d) as Hg.
  rewrite decide_True in Hg by done.
  apply mapGet_elem_of in Hg. by apply (list_elem_of_fmap_2 fst) in Hg.
Qed.

Lemma foldl_setAdd_subseteq {A : Type} `{EqDecision A} (l s : list A) :
  l ⊆ s -> foldl setAdd s l = s.
Proof.
  induction l as [|x l IH]; intros Hl; [done|]. simpl.
  unfold setAdd at 2. rewrite bool_decide_eq_true_2 by (apply Hl; left).
  apply IH. intros y Hy. apply Hl. by right.
Qed.

Lemma foldl_setAdd_NoDup {A : Type} `{EqDecision A} (l : list A) : forall s,
  NoDup (s ++ l) -> foldl setAdd s l = s ++ l.
Proof.
  induction l as [|x l IH]; intros s Hnd; simpl; [by rewrite app_nil_r|].
  unfold setAdd at 2. rewrite bool_decide_eq_false_2.
  - rewrite IH; rewrite <- app_assoc; done.
  - apply NoDup_app in Hnd as (_ & Hdis & _). intros Hx. apply (Hdis x Hx). left.
Qed.

Lemma NoDup_filter_key_singleton {A B : Type} `{EqDecision B} (f : A -> B)
    (l : list A) x :
  NoDup (map f l) -> x ∈ l -> filter (fun y => f y = f x) l = [x].
Proof.
  induction l as [|y l IH]; intros Hnd Hx; [by apply elem_of_nil in Hx|].
  simpl in Hnd. apply NoDup_cons in Hnd as [Hy Hnd]. rewrite filter_cons.
  apply elem_of_cons in Hx as [->|Hx].
  - rewrite decide_True by done. f_equal. apply elem_of_nil_inv.
    intros z [Hz Hin]%list_elem_of_filter. apply Hy. rewrite <- Hz.
    by apply (list_elem_of_fmap_2 f).
  - rewrite decide_False; [by apply IH|].
    intros Heq. apply Hy. rewrite Heq. by apply (list_elem_of_fmap_2 f).
Qed.

Lemma filter_all {A : Type} (P : A -> Prop) `{!forall x, Decision (P x)} (l : list A) :
  (forall x, x ∈ l -> P x) -> filter P l = l.
Proof.
  induction l as [|x l IH]; intros Hl; [done|].
  rewrite filter_cons_True by (apply Hl; left). f_equal.
  apply IH. intros y Hy. apply Hl. by right.
Qed.

Lemma filter_iff_in {A : Type} (P Q : A -> Prop)
    `{!forall x, Decision (P x)} `{!forall x, Decision (Q x)} (l : list A) :
  (forall x, x ∈ l -> P x <-> Q x) -> filter P l = filter Q l.
Proof.
  induction l as [|x l IH]; intros Hl; [done|].
  rewrite !filter_cons, IH by (intros y Hy; apply Hl; by right).
  pose proof (Hl x ltac:(left)) as Hx.
  destruct (decide (P x)), (decide (Q x)); tauto || done.
Qed.

Lemma elem_of_firstOccurrences l v : v ∈ firstOccurrences l <-> v ∈ l.
Proof.
  induction l as [|x l IH]; [done|]. simpl.
  rewrite !elem_of_cons, list_elem_of_filter, IH.
  destruct (decide (v = x)); tauto.
Qed.

Example firstOccurrences_ex :
  firstOccurrences ["b"; "a"; "b"; "c"; "a"] = ["b"; "a"; "c"].
Proof. reflexivity. Qed.

Lemma foldl_setAdd_firstOccurrences (l : list string) : forall s,
  foldl setAdd s l = s ++ filter (fun u => u ∉ s) (firstOccurrences l).
Proof.
  induction l as [|v l IH]; intros s; simpl; [by rewrite app_nil_r|].
  rewrite IH, filter_cons. unfold setAdd. case_bool_decide as Hv.
  - rewrite decide_False by tauto. f_equal.
    rewrite list_filter_filter. apply list_filter_iff.
    intros u. split; [|tauto]. intros Hu. split; [done|]. by intros ->.
  - rewrite decide_True by done. rewrite <- app_assoc. simpl. do 2 f_equal.
    rewrite list_filter_filter. apply list_filter_iff. intros u.
    rewrite elem_of_app, list_elem_of_singleton. tauto.
Qed.

Lemma topVersionsInOrder_setAdd top points : forall s,
  foldl (addInOrder top) (filter (fun v => v ∈ top) s) points =
  filter (fun v => v ∈ top) (foldl setAdd s (map version points)).
Proof.
  induction points as [|p points IH]; intros s; [done|]. simpl.
  rewrite <- IH. f_equal. unfold addInOrder, setAdd.
  destruct (decide (version p ∈ s)) as [Hs|Hs].
  - rewrite (bool_decide_eq_true_2 (version p ∈ s)) by done.
    case_bool_decide as Htop; [|done].
    rewrite bool_decide_eq_true_2; [done|]. by apply list_elem_of_filter.
  - rewrite (bool_decide_eq_false_2 (version p ∈ s)) by done.
    rewrite filter_app, filter_cons, filter_nil.
    case_bool_decide as Htop.
    + rewrite decide_True by done.
      rewrite bool_decide_eq_false_2; [done|].
      intros [_ ?]%list_elem_of_filter. done.
    + rewrite decide_False by done. simpl. by rewrite app_nil_r.
Qed.

(** The display order of the kept versions is the order of their first
    occurrence in the input. *)
Lemma topVersionsInOrder_firstOccurrences top points :
  topVersionsInOrder top points =
  filter (fun v => v ∈ top) (firstOccurrences (map version points)).
Proof.
  unfold topVersionsInOrder.
  pose proof (topVersionsInOrder_setAdd top points []) as Hfold.
  rewrite filter_nil in Hfold. rewrite Hfold, foldl_setAdd_firstOccurrences.
  simpl. f_equal. apply filter_all. intros u _. apply not_elem_of_nil.
Qed.

Section MoreFilterTopN.

Variable startOfDay : Z -> Z.

Lemma filterTopN_groups points n w :
  NoDup (keptVersions startOfDay points n w) /\
  exists dates,
    NoDup dates /\
    map (fun p => (date p, version p)) (filterTopN startOfDay points n w) =
    flat_map (fun d => map (fun v => (d, v)) (keptVersions startOfDay points n w)) dates.
Proof.
  destruct (last points) as [lastPoint|] eqn:Hlast.
  - split.
    + unfold keptVersions. rewrite Hlast. apply topVersionsInOrder_NoDup.
    + eexists. split; [|apply (filterTopN_keys _ _ _ _ _ Hlast)].
      apply NoDup_filter, datesAscending_NoDup.
  - unfold filterTopN, keptVersions. rewrite Hlast. split; [apply NoDup_nil_2|].
    exists []. split; [apply NoDup_nil_2|done].
Qed.

(** X5: the result of [filterTopN] is grouped by date, every date once, and
    the group of each date lists the kept versions, each once, in the order
    of their first occurrence in the input. *)
Theorem filterTopN_grouped points n w :
  NoDup (keptVersions startOfDay points n w) /\
  keptVersions startOfDay points n w =
    filter (fun v => v ∈ keptVersions startOfDay points n w)
           (firstOccurrences (map version points)) /\
  exists dates,
    NoDup dates /\
    map (fun p => (date p, version p)) (filterTopN startOfDay points n w) =
    flat_map (fun d => map (fun v => (d, v)) (keptVersions startOfDay points n w)) dates.
Proof.
  destruct (filterTopN_groups points n w) as [Hnd Hgroups].
  split_and!; [done| |done].
  unfold keptVersions. destruct (last points) as [lastPoint|].
  - rewrite topVersionsInOrder_firstOccurrences at 1.
    apply filter_iff_in. intros v Hv. apply (proj1 (elem_of_firstOccurrences _ _)) in Hv.
    rewrite topVersionsInOrder_spec. tauto.
  - symmetry. apply elem_of_nil_inv. intros v [Hv _]%list_elem_of_filter.
    by apply elem_of_nil in Hv.
Qed.

(** X6: a point of the result of [filterTopN] is the first point of the
    input with its date and its version, when there is one, and has a zero
    count otherwise: no other count appears. *)
Theorem filterTopN_counts points n w p :
  p ∈ filterTopN startOfDay points n w ->
  p = match firstPoint (date p) (version p) points with
      | Some q => q
      | None => {| date := date p; version := version p; count := Num 0 |}
      end.
Proof.
  unfold filterTopN. destruct (last points) as [lastPoint|]; [|by intros ?%elem_of_nil].
  simpl. intros (d & v & _ & _ & Hv & Hp)%elem_of_pointsWithZero.
  apply topVersionsInOrder_spec in Hv as [Hv _].
  pose proof (zeroFilledPoint_key _ d v (pointsByDate_ok
    (filteredPoints (topVersions (earliestAllowableDate startOfDay (date lastPoint) w)
                       points n) points))) as [Hd Hpv].
  rewrite <- Hp in Hd, Hpv. rewrite Hd, Hpv.
  rewrite Hp at 1. by apply zeroFilledPoint_first.
Qed.

(** X7: the kept versions are versions of the input that have a point at or
    after the boundary, whatever [n] is. *)
Theorem keptVersions_in_window points n w v :
  v ∈ keptVersions startOfDay points n w ->
  exists lastPoint p,
    last points = Some lastPoint /\ p ∈ points /\ version p = v /\
    earliestAllowableDate startOfDay (date lastPoint) w <= date p.
Proof.
  unfold keptVersions. destruct (last points) as [lastPoint|]; [|by intros ?%elem_of_nil].
  intros [Hv _]%topVersionsInOrder_spec.
  apply topVersions_in_window in Hv as (p & Hp & Hpv & He). eauto 10.
Qed.

(** X8: on an input that is not empty, with a window that is not negative
    and an [n] that is not negative, the result of [filterTopN] is not
    empty, provided the local day of the latest date does not start after
    it. *)
Theorem filterTopN_nonempty points n w lastPoint :
  last points = Some lastPoint ->
  startOfDay (date lastPoint) <= date lastPoint ->
  0 <= w -> 0 <= n ->
  filterTopN startOfDay points n w <> [].
Proof.
  intros Hlast Hday Hw Hn.
  set (e := earliestAllowableDate startOfDay (date lastPoint) w).
  assert (He : e <= date lastPoint) by (unfold e, earliestAllowableDate; lia).
  assert (Hwin : version lastPoint ∈ map vcVersion (versionsInWindow e points)).
  { apply versionsInWindow_versions. exists lastPoint.
    split_and!; [|done..]. by apply last_Some_elem_of. }
  assert (Htop : exists v, v ∈ topVersions e points n).
  { unfold topVersions.
    set (sorted := sortWith _ (versionsInWindow e points)).
    assert (Hlen : (0 < length sorted)%nat).
    { unfold sorted. rewrite sortWith_Permutation.
      destruct (versionsInWindow e points); [by apply elem_of_nil in Hwin|simpl; lia]. }
    destruct (slice (- n) sorted) as [|c l] eqn:Es.
    - apply (f_equal length) in Es. unfold slice in Es.
      rewrite length_drop in Es. simpl in Es.
      destruct (- n <? 0) eqn:En; lia.
    - exists (vcVersion c). left. }
  destruct Htop as [v Hv].
  destruct (topVersions_in_window _ _ _ _ Hv) as (p & Hp & Hpv & Hpe).
  assert (Hkey : (date p, v) ∈ map (fun p => (date p, version p))
                                  (filterTopN startOfDay points n w)).
  { rewrite (filterTopN_keys _ _ _ _ _ Hlast). apply elem_of_product. split.
    - apply list_elem_of_filter. split; [done|].
      unfold datesAscending, defaultSort. rewrite sortWith_Permutation.
      apply mapKeys_pointsByDate_2, (list_elem_of_fmap_2 date).
      apply list_elem_of_filter. split; [by rewrite Hpv|done].
    - unfold keptVersions. rewrite Hlast. apply topVersionsInOrder_spec.
      split; [done|]. rewrite <- Hpv. by apply (list_elem_of_fmap_2 version). }
  intros Hnil. rewrite Hnil in Hkey. by apply elem_of_nil in Hkey.
Qed.

(** X9: when the result of [filterTopN] is not empty, the series of the
    chart, [allVersionsArr] of the result, are the kept versions in their
    display order. *)
Theorem allVersionsArr_filterTopN points n w :
  filterTopN startOfDay points n w <> [] ->
  allVersionsArr (filterTopN startOfDay points n w) = keptVersions startOfDay points n w.
Proof.
  intros Hne. destruct (filterTopN_groups points n w) as (Hnd & dates & _ & Hkeys).
  assert (Hv : map version (filterTopN startOfDay points n w) =
               flat_map (fun _ => keptVersions startOfDay points n w) dates).
  { transitivity (map snd (map (fun p => (date p, version p))
                              (filterTopN startOfDay points n w))).
    { by rewrite map_map. }
    rewrite Hkeys. clear. induction dates as [|d dates IH]; [done|].
    simpl. rewrite map_app, IH, map_map. simpl. by rewrite map_id. }
  unfold allVersionsArr. rewrite Hv.
  destruct dates as [|d dates].
  { simpl in Hkeys. destruct (filterTopN startOfDay points n w); done. }
  simpl. rewrite foldl_app, (foldl_setAdd_NoDup _ []) by done. simpl.
  apply foldl_setAdd_subseteq. intros v. rewrite list_elem_of_In, in_flat_map.
  intros (_ & _ & Hin). by apply list_elem_of_In.
Qed.

(** X10: after [filterTopN] every row of the chart has an entry for every
    kept version other than [__proto__], and the entry is the count of the
    point of the result with the date of the row and that version. *)
Theorem data_filterTopN_complete points n w row v :
  row ∈ data (filterTopN startOfDay points n w) ->
  v ∈ keptVersions startOfDay points n w ->
  v <> "__proto__" ->
  exists p,
    p ∈ filterTopN startOfDay points n w /\ date p = rowDate row /\ version p = v /\
    versionCounts row !! v = Some (count p).
Proof.
  intros Hrow Hv Hproto. set (out := filterTopN startOfDay points n w) in *.
  assert (Hd : rowDate row ∈ map date out).
  { apply (proj2 (rowDates_data out)). by apply (list_elem_of_fmap_2 rowDate). }
  apply list_elem_of_fmap in Hd as (q & Hqd & Hq).
  destruct (filterTopN_groups points n w) as (_ & dates & _ & Hkeys). fold out in Hkeys.
  assert (Hkey : (rowDate row, v) ∈ map (fun p => (date p, version p)) out).
  { apply (list_elem_of_fmap_2 (fun p => (date p, version p))) in Hq.
    rewrite <- map_fmap, Hkeys in Hq. apply elem_of_product in Hq as [Hq _].
    rewrite Hkeys. apply elem_of_product. by rewrite Hqd. }
  apply list_elem_of_fmap in Hkey as (p & [= Hpd Hpv] & Hp).
  exists p. split_and!; [done..|].
  rewrite (row_lookup_data _ _ _ Hrow Hproto). unfold lastCount.
  rewrite (list_filter_iff _ (fun q => (date q, version q) = (date p, version p)))
    by (intros x; rewrite Hpd, Hpv; split; [by intros [-> ->]|by intros [= -> ->]]).
  rewrite (NoDup_filter_key_singleton (fun q => (date q, version q)) out p);
    [done| |done].
  apply filterTopN_keys_NoDup.
Qed.

End MoreFilterTopN.

(** ** The ranking of filterTopN *)

(** An insertion sort with a comparator that is a total preorder on the
    elements of the list gives a sorted list. *)
Lemma insertSorted_sorted {A : Type} (gt : A -> A -> bool) (R : A -> A -> Prop)
    (P : A -> Prop) :
  (forall x y, P x -> P y -> gt x y = false -> R x y) ->
  (forall x y, P x -> P y -> gt x y = true -> R y x) ->
  (forall x y z, P x -> P y -> P z -> R x y -> R y z -> R x z) ->
  forall x l, P x -> Forall P l -> StronglySorted R l ->
              StronglySorted R (insertSorted gt x l).
Proof.
  intros Hle Hgt Htrans x l Hx. induction l as [|y l IH]; intros Hl Hs; simpl.
  - repeat constructor.
  - apply Forall_cons in Hl as [Hy Hl]. apply StronglySorted_inv in Hs as [Hs Hyl].
    destruct (gt x y) eqn:E.
    + constructor; [by apply IH|].
      rewrite insertSorted_Permutation. constructor; [by apply Hgt|done].
    + constructor; [by constructor|]. constructor; [by apply Hle|].
      rewrite Forall_forall in *. intros z Hz.
      apply (Htrans x y z); auto.
Qed.

Lemma sortWith_sorted {A : Type} (gt : A -> A -> bool) (R : A -> A -> Prop)
    (P : A -> Prop) :
  (forall x y, P x -> P y -> gt x y = false -> R x y) ->
  (forall x y, P x -> P y -> gt x y = true -> R y x) ->
  (forall x y z, P x -> P y -> P z -> R x y -> R y z -> R x z) ->
  forall l, Forall P l -> StronglySorted R (sortWith gt l).
Proof.
  intros Hle Hgt Htrans l. induction l as [|x l IH]; intros Hl; simpl.
  - constructor.
  - apply Forall_cons in Hl as [Hx Hl].
    apply (insertSorted_sorted gt R P); auto.
    by rewrite sortWith_Permutation.
Qed.

Lemma Qle_of_diff_not_pos (x y : Q) : (x + - y ?= 0)%Q <> Gt -> (x <= y)%Q.
Proof.
  intros H. apply Qle_alt in H. destruct x as [xn xd], y as [yn yd].
  unfold Qle in *. simpl in *. lia.
Qed.

Lemma Qle_of_diff_pos (x y : Q) : (x + - y ?= 0)%Q = Gt -> (y <= x)%Q.
Proof.
  intros H. apply Qgt_alt in H. destruct x as [xn xd], y as [yn yd].
  unfold Qle, Qlt in *. simpl in *. lia.
Qed.

Lemma countLe_of_not_gt a b :
  isFinite (vcCount a) = true -> isFinite (vcCount b) = true ->
  numIsPositive (numSub (vcCount a) (vcCount b)) = false -> countLe a b.
Proof.
  unfold countLe. destruct (vcCount a) as [x| | |], (vcCount b) as [y| | |];
    try done. intros _ _ H. exists x, y. split_and!; [done..|].
  simpl in H. apply Qle_of_diff_not_pos. by destruct (x + - y ?= 0)%Q.
Qed.

Lemma countLe_of_gt a b :
  isFinite (vcCount a) = true -> isFinite (vcCount b) = true ->
  numIsPositive (numSub (vcCount a) (vcCount b)) = true -> countLe b a.
Proof.
  unfold countLe. destruct (vcCount a) as [x| | |], (vcCount b) as [y| | |];
    try done. intros _ _ H. exists y, x. split_and!; [done..|].
  simpl in H. apply Qle_of_diff_pos. by destruct (x + - y ?= 0)%Q.
Qed.

Lemma countLe_trans a b c : countLe a b -> countLe b c -> countLe a c.
Proof.
  intros (x & y & Hx & Hy & Hxy) (y' & z & Hy' & Hz & Hyz).
  rewrite Hy in Hy'. inversion Hy'; subst y'.
  exists x, z. split_and!; [done..|]. by apply Qle_trans with y.
Qed.

Lemma addToWindow_finite e vw p :
  isFinite (count p) = true ->
  Forall (fun c => isFinite (vcCount c) = true) vw ->
  Forall (fun c => isFinite (vcCount c) = true) (addToWindow e vw p).
Proof.
  intros Hp Hvw. unfold addToWindow. destruct (e <=? date p); [|done].
  assert (Hnew : isFinite (if date p <? e then Num 0 else count p) = true)
    by (by destruct (date p <? e)).
  destruct (list_find _ vw) as [[i c]|] eqn:E.
  - apply list_find_Some in E as (Hi & _ & _).
    apply Forall_insert; [done|]. simpl.
    rewrite Forall_forall in Hvw.
    pose proof (Hvw c ltac:(apply list_elem_of_lookup; eauto)) as Hc.
    destruct (vcCount c), (if date p <? e then Num 0 else count p); done.
  - apply Forall_app. split; [done|]. by repeat constructor.
Qed.

Lemma versionsInWindow_finite e points :
  Forall (fun p => isFinite (count p) = true) points ->
  Forall (fun c => isFinite (vcCount c) = true) (versionsInWindow e points).
Proof.
  unfold versionsInWindow. induction points as [|p points IH] using rev_ind.
  { intros _. constructor. }
  intros [Hpts Hp]%Forall_app. rewrite foldl_snoc.
  apply addToWindow_finite; [|by apply IH].
  by inversion Hp.
Qed.

Lemma versionsInWindow_NoDup e points :
  NoDup (map vcVersion (versionsInWindow e points)).
Proof.
  unfold versionsInWindow. induction points as [|p points IH] using rev_ind.
  - apply NoDup_nil_2.
  - rewrite foldl_snoc, map_vcVersion_addToWindow. case_decide as Hp; [|done].
    apply NoDup_app. split_and!; [done| |apply NoDup_singleton].
    intros x Hx Hx'. apply list_elem_of_singleton in Hx' as ->. tauto.
Qed.

Lemma NoDup_fmap_eq {A B : Type} (f : A -> B) (l : list A) x y :
  NoDup (map f l) -> x ∈ l -> y ∈ l -> f x = f y -> x = y.
Proof.
  intros Hnd [i Hi]%list_elem_of_lookup [j Hj]%list_elem_of_lookup Hf.
  assert (i = j); [|congruence].
  apply (NoDup_lookup _ _ _ (f x) Hnd).
  - by rewrite map_fmap, list_lookup_fmap, Hi.
  - by rewrite map_fmap, list_lookup_fmap, Hj, Hf.
Qed.

(** The ranking is in ascending order of the totals when the counts are
    finite. *)
Lemma ranking_sorted e points :
  Forall (fun p => isFinite (count p) = true) points ->
  StronglySorted countLe
    (sortWith (fun a b => numIsPositive (numSub (vcCount a) (vcCount b)))
       (versionsInWindow e points)).
Proof.
  intros Hfin.
  apply (sortWith_sorted _ countLe (fun c => isFinite (vcCount c) = true)).
  - intros x y. apply countLe_of_not_gt.
  - intros x y. apply countLe_of_gt.
  - intros x y z _ _ _. apply countLe_trans.
  - by apply versionsInWindow_finite.
Qed.

(** X11: the versions kept by the ranking have the highest totals.  When
    the counts are finite, the total of every ranked version that is not
    among the top versions is at most the total of every version that is. *)
Theorem topVersions_highest e points n a b :
  Forall (fun p => isFinite (count p) = true) points ->
  a ∈ versionsInWindow e points -> b ∈ versionsInWindow e points ->
  vcVersion a ∉ topVersions e points n ->
  vcVersion b ∈ topVersions e points n ->
  countLe a b.
Proof.
  intros Hfin Ha Hb Hna Hb'. unfold topVersions in *.
  set (sorted := sortWith _ (versionsInWindow e points)) in *.
  pose proof (ranking_sorted e points Hfin) as Hs. fold sorted in Hs.
  assert (Hperm : sorted ≡ₚ versionsInWindow e points) by apply sortWith_Permutation.
  assert (Hnd : NoDup (map vcVersion sorted)).
  { rewrite Hperm. apply versionsInWindow_NoDup. }
  unfold slice in *. set (k := Z.to_nat _) in *.
  rewrite <- (take_drop k sorted) in Hs.
  apply (StronglySorted_app_1_elem_of _ _ _ _ _ Hs).
  - rewrite <- Hperm, <- (take_drop k sorted) in Ha.
    apply elem_of_app in Ha as [Ha|Ha]; [done|].
    destruct Hna. by apply (list_elem_of_fmap_2 vcVersion).
  - apply list_elem_of_fmap in Hb' as (b' & Hv & Hb').
    rewrite <- Hperm in Hb.
    assert (b = b'); [|by subst].
    apply (NoDup_fmap_eq vcVersion sorted); [done..| |done].
    by apply (subseteq_drop k).
Qed.

Lemma find_key_elem_of {A B : Type} `{EqDecision B} (f : A -> B) (l : list A) x :
  NoDup (map f l) -> x ∈ l ->
  snd <$> list_find (fun y => f y = f x) l = Some x.
Proof.
  intros Hnd [i Hi]%list_elem_of_lookup.
  rewrite (proj2 (list_find_Some _ l i x)); [done|].
  split_and!; [done..|]. intros j y Hj Hlt Hy.
  assert (i = j); [|lia].
  apply (NoDup_lookup _ _ _ (f x) Hnd).
  - by rewrite map_fmap, list_lookup_fmap, Hi.
  - by rewrite map_fmap, list_lookup_fmap, Hj, <- Hy.
Qed.

Lemma windowCounts_snoc e v points p :
  windowCounts e v (points ++ [p]) =
  windowCounts e v points ++
  (if decide (e <= date p /\ version p = v) then [count p] else []).
Proof.
  unfold windowCounts. rewrite filter_app, map_app. f_equal.
  rewrite filter_cons, filter_nil. by case_decide.
Qed.

Lemma windowEntry_addToWindow e vw p v :
  vcCount <$> windowEntry (addToWindow e vw p) v =
  if decide (e <= date p /\ version p = v)
  then Some match vcCount <$> windowEntry vw v with
            | Some c => numAdd c (count p)
            | None => count p
            end
  else vcCount <$> windowEntry vw v.
Proof.
  unfold addToWindow, windowEntry. destruct (e <=? date p) eqn:Ee; cycle 1.
  { rewrite decide_False; [done|lia]. }
  assert (Hnew : (if date p <? e then Num 0 else count p) = count p).
  { destruct (date p <? e) eqn:E; [lia|done]. }
  rewrite Hnew. clear Hnew.
  destruct (list_find (fun c => vcVersion c = version p) vw) as [[i c]|] eqn:E.
  - pose proof E as (Hi & Hc & _)%list_find_Some.
    rewrite (list_find_insert_key _ vw i c _ Hi) by (simpl; by rewrite Hc).
    destruct (decide (version p = v)) as [<-|Hne].
    + rewrite decide_True by (split; [lia|done]).
      rewrite E. simpl. by rewrite decide_True.
    + rewrite decide_False by tauto.
      destruct (list_find (fun c => vcVersion c = v) vw) as [[j c']|] eqn:E'; [|done].
      simpl. destruct (decide (j = i)) as [->|]; [|done].
      apply list_find_Some in E' as (Hj & Hc' & _). congruence.
  - destruct (decide (version p = v)) as [<-|Hne].
    + rewrite decide_True by (split; [lia|done]).
      rewrite (list_find_app_r _ _ _ E), E. simpl. by rewrite decide_True.
    + rewrite decide_False by tauto.
      destruct (list_find (fun c => vcVersion c = v) vw) as [[j c']|] eqn:E'.
      * by rewrite (list_find_app_l _ _ _ _ _ E').
      * rewrite (list_find_app_r _ _ _ E'). simpl. by rewrite decide_False.
Qed.

Lemma windowEntry_versionsInWindow e points v :
  vcCount <$> windowEntry (versionsInWindow e points) v =
  match windowCounts e v points with
  | [] => None
  | c :: cs => Some (foldl numAdd c cs)
  end.
Proof.
  unfold versionsInWindow. induction points as [|p points IH] using rev_ind; [done|].
  rewrite foldl_snoc, windowEntry_addToWindow, IH, windowCounts_snoc.
  case_decide as Hp; [|by rewrite app_nil_r].
  destruct (windowCounts e v points) as [|c cs]; [done|].
  simpl. by rewrite foldl_snoc.
Qed.

(** X12: the total ranked for a version is the sum of the counts of its
    points at or after the boundary, added in list order starting from the
    first of them; a version is ranked only if it has such a point. *)
Theorem versionsInWindow_total e points c :
  c ∈ versionsInWindow e points ->
  exists x xs,
    windowCounts e (vcVersion c) points = x :: xs /\ vcCount c = foldl numAdd x xs.
Proof.
  intros Hc.
  pose proof (windowEntry_versionsInWindow e points (vcVersion c)) as H.
  unfold windowEntry in H.
  rewrite (find_key_elem_of vcVersion _ c (versionsInWindow_NoDup e points) Hc) in H.
  destruct (windowCounts e (vcVersion c) points) as [|x xs]; [done|].
  exists x, xs. split; [done|]. simpl in H. congruence.
Qed.

Lemma slice_all {A : Type} (n : Z) (l : list A) :
  Z.of_nat (length l) <= n -> slice (- n) l = l.
Proof.
  intros Hn. unfold slice. destruct (- n <? 0) eqn:E.
  - by rewrite Z.max_r by lia.
  - destruct l; [by rewrite drop_nil|simpl in Hn; lia].
Qed.

Lemma length_versionsInWindow e points :
  length (versionsInWindow e points) =
  size (list_to_set (C := gset string)
          (map version (filter (fun p => e <= date p) points))).
Proof.
  rewrite <- (length_map vcVersion).
  rewrite <- (size_list_to_set (C := gset string)) by apply versionsInWindow_NoDup.
  f_equal. apply set_eq. intros v.
  rewrite !elem_of_list_to_set, versionsInWindow_versions. split.
  - intros (p & Hp & <- & He). apply (list_elem_of_fmap_2 version).
    by apply list_elem_of_filter.
  - intros (p & -> & [He Hp]%list_elem_of_filter)%list_elem_of_fmap. eauto.
Qed.

Section Ranking.

Variable startOfDay : Z -> Z.

(** X13: when [n] is at least the number of distinct versions with a point
    at or after the boundary, [filterTopN] keeps every one of them. *)
Theorem keptVersions_all points n w lastPoint v :
  last points = Some lastPoint ->
  let e := earliestAllowableDate startOfDay (date lastPoint) w in
  Z.of_nat (size (list_to_set (C := gset string)
                    (map version (filter (fun p => e <= date p) points)))) <= n ->
  (v ∈ keptVersions startOfDay points n w <->
   exists p, p ∈ points /\ version p = v /\ e <= date p).
Proof.
  intros Hlast e Hn. unfold keptVersions. rewrite Hlast. fold e.
  rewrite <- length_versionsInWindow in Hn.
  rewrite topVersionsInOrder_spec. unfold topVersions.
  rewrite slice_all by (by rewrite sortWith_Permutation).
  rewrite sortWith_Permutation, versionsInWindow_versions. split; [tauto|].
  intros (p & Hp & Hv & He). split; [eauto|].
  rewrite <- Hv. by apply (list_elem_of_fmap_2 version).
Qed.

End Ranking.

(** ** Sorting dates as strings *)

Lemma uintValue_of_uint_acc u : forall acc,
  uintValue u (Npos acc) = Npos (Pos.of_uint_acc u acc).
Proof.
  induction u; intros acc; simpl; [done|..];
    rewrite <- IHu; f_equal; lia.
Qed.

Lemma uintValue_of_uint u : uintValue u 0 = Pos.of_uint u.
Proof.
  induction u; simpl; [done|done|..]; apply uintValue_of_uint_acc.
Qed.

Lemma uintValue_split u : forall acc,
  (uintValue u acc = acc * 10 ^ N.of_nat (Decimal.nb_digits u) + uintValue u 0)%N.
Proof.
  induction u; intros acc; cbn [uintValue Decimal.nb_digits]; [simpl; lia|..];
    rewrite Nat2N.inj_succ, N.pow_succ_r';
    match goal with
    | |- uintValue u ?a = (_ + uintValue u ?b)%N => rewrite (IHu a), (IHu b)
    end; lia.
Qed.

Lemma uintValue_bound u : (uintValue u 0 < 10 ^ N.of_nat (Decimal.nb_digits u))%N.
Proof.
  induction u; cbn [uintValue Decimal.nb_digits]; [simpl; lia|..];
    rewrite Nat2N.inj_succ, N.pow_succ_r', uintValue_split; lia.
Qed.

(** Two digit lists of the same length compare as strings the way their
    numbers compare. *)
Lemma string_of_uint_compare u : forall v,
  Decimal.nb_digits u = Decimal.nb_digits v ->
  String.compare (NilEmpty.string_of_uint u) (NilEmpty.string_of_uint v)
  = (uintValue u 0 ?= uintValue v 0)%N.
Proof.
  induction u; intros v Hlen; destruct v; try discriminate Hlen;
    [done|..]; injection Hlen as Hlen;
    cbn [NilEmpty.string_of_uint uintValue String.compare];
    rewrite (uintValue_split u), (uintValue_split v), <- Hlen;
    pose proof (uintValue_bound u) as Hu; pose proof (uintValue_bound v) as Hv;
    rewrite <- Hlen in Hv;
    set (P := (10 ^ N.of_nat (Decimal.nb_digits u))%N) in *;
    first
      [ change (Ascii.compare _ _) with Eq; cbn iota;
        rewrite (IHu v Hlen);
        destruct (N.compare_spec (uintValue u 0) (uintValue v 0)); symmetry;
        [apply N.compare_eq_iff|apply N.compare_lt_iff|apply N.compare_gt_iff]; lia
      | change (Ascii.compare _ _) with Lt; cbn iota;
        symmetry; apply N.compare_lt_iff; lia
      | change (Ascii.compare _ _) with Gt; cbn iota;
        symmetry; apply N.compare_gt_iff; lia ].
Qed.

Lemma to_uint_value p : uintValue (Pos.to_uint p) 0 = Npos p.
Proof. rewrite uintValue_of_uint. apply DecimalPos.Unsigned.of_to. Qed.

Lemma to_uint_unorm p : Decimal.unorm (Pos.to_uint p) = Pos.to_uint p.
Proof.
  rewrite <- (DecimalPos.Unsigned.to_of (Pos.to_uint p)).
  by rewrite DecimalPos.Unsigned.of_to.
Qed.

(** The first digit of a positive number is not zero. *)
Lemma uintValue_lower u :
  Decimal.unorm u = u -> u <> Decimal.zero -> u <> Decimal.Nil ->
  (10 ^ N.of_nat (Nat.pred (Decimal.nb_digits u)) <= uintValue u 0)%N.
Proof.
  intros Hnorm Hnz Hnn.
  destruct u as [|u|u|u|u|u|u|u|u|u|u]; [done| |..];
    try (cbn [uintValue Decimal.nb_digits Nat.pred]; rewrite uintValue_split; lia).
  exfalso. rewrite unorm_D0 in Hnorm. unfold Decimal.unorm in Hnorm.
  destruct (Decimal.nzhead u) eqn:E; try discriminate Hnorm.
  - injection Hnorm as Hu. subst u. by destruct Hnz.
  - exact (nzhead_nonzero u _ E).
Qed.

Lemma to_uint_lower p :
  (10 ^ N.of_nat (Nat.pred (Decimal.nb_digits (Pos.to_uint p))) <= Npos p)%N.
Proof.
  etrans; [apply (uintValue_lower (Pos.to_uint p))|by rewrite to_uint_value].
  - apply to_uint_unorm.
  - apply DecimalPos.Unsigned.to_uint_nonzero.
  - apply DecimalPos.Unsigned.to_uint_nonnil.
Qed.

Lemma nb_digits_to_uint p (k : nat) :
  (10 ^ N.of_nat k <= Npos p)%N -> (Npos p < 10 ^ N.of_nat (S k))%N ->
  Decimal.nb_digits (Pos.to_uint p) = S k.
Proof.
  intros Hlo Hhi.
  pose proof (to_uint_lower p) as Hlow.
  pose proof (uintValue_bound (Pos.to_uint p)) as Hup. rewrite to_uint_value in Hup.
  set (m := Decimal.nb_digits (Pos.to_uint p)) in *.
  assert (H1 : (N.of_nat (pred m) < N.of_nat (S k))%N).
  { apply (N.pow_lt_mono_r_iff 10); lia. }
  assert (H2 : (N.of_nat k < N.of_nat m)%N).
  { apply (N.pow_lt_mono_r_iff 10); lia. }
  lia.
Qed.

Lemma toString_pos p :
  toString (Zpos p) = NilEmpty.string_of_uint (Pos.to_uint p).
Proof.
  unfold toString. simpl. unfold NilZero.string_of_uint.
  pose proof (DecimalPos.Unsigned.to_uint_nonnil p).
  by destruct (Pos.to_uint p).
Qed.

(** Two dates with the same number of digits compare as strings the way
    they compare as numbers. *)
Lemma toString_ltb (k : nat) x y :
  10 ^ Z.of_nat k <= x < 10 ^ Z.of_nat (S k) ->
  10 ^ Z.of_nat k <= y < 10 ^ Z.of_nat (S k) ->
  String.ltb (toString x) (toString y) = (x <? y).
Proof.
  intros Hx Hy.
  assert (Hpow : forall j : nat, Z.of_N (10 ^ N.of_nat j) = 10 ^ Z.of_nat j).
  { intros j. by rewrite N2Z.inj_pow, nat_N_Z. }
  assert (0 < 10 ^ Z.of_nat k) by (apply Z.pow_pos_nonneg; lia).
  destruct x as [|p|p]; [lia| |lia]. destruct y as [|q|q]; [lia| |lia].
  rewrite !toString_pos. unfold String.ltb.
  rewrite string_of_uint_compare, !to_uint_value.
  - done.
  - pose proof (Hpow k). pose proof (Hpow (S k)).
    rewrite !(nb_digits_to_uint _ k); [done|lia..].
Qed.

(** On dates with the same number of digits the sort without a comparator
    gives the ascending order. *)
Lemma defaultSort_sorted (k : nat) l :
  Forall (fun d => 10 ^ Z.of_nat k <= d < 10 ^ Z.of_nat (S k)) l ->
  StronglySorted Z.le (defaultSort l).
Proof.
  intros Hl. unfold defaultSort.
  apply (sortWith_sorted _ Z.le
           (fun d => 10 ^ Z.of_nat k <= d < 10 ^ Z.of_nat (S k))); [| | |done].
  - intros x y Hx Hy. rewrite (toString_ltb k) by done. lia.
  - intros x y Hx Hy. rewrite (toString_ltb k) by done. lia.
  - intros x y z _ _ _. lia.
Qed.

Lemma StronglySorted_filter_le (P : Z -> Prop) `{!forall x, Decision (P x)} l :
  StronglySorted Z.le l -> StronglySorted Z.le (filter P l).
Proof.
  induction 1 as [|x l Hs IH Hx]; [constructor|].
  rewrite filter_cons. case_decide; [|done].
  constructor; [done|]. rewrite Forall_forall in *.
  intros y [_ Hy]%list_elem_of_filter. auto.
Qed.

Lemma StronglySorted_groups {A : Type} (vs : list A) ds :
  StronglySorted Z.le ds ->
  StronglySorted Z.le (map fst (flat_map (fun d => map (fun v => (d, v)) vs) ds)).
Proof.
  induction 1 as [|d ds Hs IH Hd]; [constructor|].
  simpl. rewrite map_app. apply StronglySorted_app. split_and!; [|clear|done].
  - intros x1 x2 Hx1 Hx2. rewrite Forall_forall in Hd.
    rewrite map_map in Hx1. simpl in Hx1.
    apply list_elem_of_fmap in Hx1 as (v & -> & _).
    apply list_elem_of_fmap in Hx2 as ([d' v'] & -> & Hin).
    rewrite list_elem_of_In, in_flat_map in Hin.
    destruct Hin as (d'' & Hd'' & Hin). apply in_map_iff in Hin as (? & [= <- <-] & _).
    apply Hd. by apply list_elem_of_In.
  - rewrite map_map. simpl. induction vs as [|v vs IHvs]; [constructor|].
    simpl. constructor; [done|]. apply Forall_forall.
    intros x (? & -> & _)%list_elem_of_fmap. lia.
Qed.

Section SameDigits.

Variable startOfDay : Z -> Z.

(** X14: when all the dates of the input have the same number of decimal
    digits, [k + 1], the result of [filterTopN] is in ascending order of
    date.  Every date from 2001-09-09 to 2286-11-20 has 13 digits. *)
Theorem filterTopN_ascending (k : nat) points n w :
  Forall (fun p => 10 ^ Z.of_nat k <= date p < 10 ^ Z.of_nat (S k)) points ->
  StronglySorted Z.le (map date (filterTopN startOfDay points n w)).
Proof.
  intros Hrange.
  destruct (last points) as [lastPoint|] eqn:Hlast; cycle 1.
  { unfold filterTopN. rewrite Hlast. constructor. }
  replace (map date (filterTopN startOfDay points n w))
    with (map fst (map (fun p => (date p, version p))
                       (filterTopN startOfDay points n w)))
    by (by rewrite map_map).
  rewrite (filterTopN_keys _ _ _ _ _ Hlast).
  apply StronglySorted_groups, StronglySorted_filter_le.
  unfold datesAscending. apply (defaultSort_sorted k).
  apply Forall_forall. intros d Hd%mapKeys_pointsByDate.
  apply list_elem_of_fmap in Hd as (p & -> & [_ Hp]%list_elem_of_filter).
  rewrite Forall_forall in Hrange. by apply Hrange.
Qed.

End SameDigits.

(** The theorem at two dates of 13 digits given in descending order. *)
Lemma filterTopN_ascending_witness :
  StronglySorted Z.le
    (map date (filterTopN utcStartOfDay
                 [mkPoint 1700086400000 "a" (Num 1); mkPoint 1700000000000 "a" (Num 2);
                  mkPoint 1700086400000 "b" (Num 3)] 2 30)).
Proof.
  apply (filterTopN_ascending utcStartOfDay 12).
  repeat constructor; simpl; lia.
Defined.

(** ** More on calculateDateTicks *)

Section MoreTicks.

Variable startOfDay : Z -> Z.

(** The interval the loop ends on: the first of [t], [2 t], [4 t], ... that
    the duration holds at most [m] times. *)
Lemma doubleTickInterval_least dur m : forall fuel t r,
  0 < t ->
  doubleTickInterval fuel dur m t = Some r ->
  exists k : nat,
    r = t * 2 ^ Z.of_nat k /\ dur / r <= m /\
    forall j : nat, (j < k)%nat -> m < dur / (t * 2 ^ Z.of_nat j).
Proof.
  induction fuel as [|fuel IH]; intros t r Ht H; [done|]. simpl in H.
  destruct (dur / t >? m) eqn:E.
  - destruct (IH (t * 2) r ltac:(lia) H) as (k & -> & Hle & Hj).
    exists (S k). split_and!.
    + rewrite Nat2Z.inj_succ, Z.pow_succ_r by lia. lia.
    + done.
    + intros [|j] Hlt.
      * simpl. rewrite Z.mul_1_r. lia.
      * specialize (Hj j ltac:(lia)).
        rewrite Nat2Z.inj_succ, Z.pow_succ_r by lia.
        by replace (t * (2 * 2 ^ Z.of_nat j)) with (t * 2 * 2 ^ Z.of_nat j) by lia.
  - inversion H; subst r. exists O. split_and!.
    + simpl. lia.
    + lia.
    + intros j Hj. lia.
Qed.

Lemma calculateDateTicks_more_fuel dates maxTicks fuel fuel' ticks :
  calculateDateTicks startOfDay fuel dates maxTicks = Some ticks ->
  (fuel <= fuel')%nat ->
  calculateDateTicks startOfDay fuel' dates maxTicks = Some ticks.
Proof.
  unfold calculateDateTicks. intros H Hle.
  destruct (maxTicks =? 0); [done|]. destruct (maxTicks =? 1); [done|].
  destruct (maxTicks =? 2); [done|].
  destruct (head dates) as [first|]; [|done].
  destruct (last dates) as [last|]; [|done].
  destruct (doubleTickInterval fuel _ _ _) as [t|] eqn:E; [|done].
  by rewrite (doubleTickInterval_more_fuel _ _ _ _ _ _ E Hle).
Qed.

(** X15: for every date list and every [maxTicks] that is not negative the
    search for the interval ends: with enough fuel the function returns,
    and more fuel does not change the ticks. *)
Theorem calculateDateTicks_terminates dates maxTicks :
  0 <= maxTicks ->
  exists fuel0 ticks, forall fuel,
    (fuel0 <= fuel)%nat ->
    calculateDateTicks startOfDay fuel dates maxTicks = Some ticks.
Proof.
  intros Hk. destruct (calculateDateTicks_returns startOfDay dates maxTicks Hk)
    as (fuel0 & ticks & H).
  exists fuel0, ticks. intros fuel Hle. by apply (calculateDateTicks_more_fuel _ _ fuel0).
Qed.

(** X16: with a negative [maxTicks] and a last date that is not before the
    first the loop that doubles the interval never ends: the function
    returns for no amount of fuel. *)
Theorem calculateDateTicks_negative_diverges fuel dates maxTicks first last :
  maxTicks < 0 ->
  head dates = Some first -> list.last dates = Some last -> first <= last ->
  calculateDateTicks startOfDay fuel dates maxTicks = None.
Proof.
  intros Hk Hf Hl Hle. unfold calculateDateTicks. rewrite Hf, Hl.
  destruct (maxTicks =? 0) eqn:E0; [lia|].
  destruct (maxTicks =? 1) eqn:E1; [lia|].
  destruct (maxTicks =? 2) eqn:E2; [lia|].
  by rewrite doubleTickInterval_diverges by lia.
Qed.

Lemma scanDate_subseteq tickInterval dates : forall st x,
  x ∈ fst (foldl (scanDate startOfDay tickInterval) st dates) ->
  x ∈ fst st \/ x ∈ dates.
Proof.
  induction dates as [|d dates IH]; intros st x Hx; [by left|].
  simpl in Hx. apply IH in Hx as [Hx|Hx]; [|right; by right].
  unfold scanDate in Hx. destruct (snd st <=? d); [|by left]. simpl in Hx.
  unfold setAdd in Hx. case_bool_decide; [by left|].
  apply elem_of_app in Hx as [?|Hx]; [by left|].
  apply list_elem_of_singleton in Hx as ->. right. left.
Qed.

(** X17: every tick is one of the dates of the list, when the list is not
    empty. *)
Theorem calculateDateTicks_subset fuel first dates maxTicks ticks tick :
  calculateDateTicks startOfDay fuel (first :: dates) maxTicks = Some ticks ->
  tick ∈ ticks ->
  exists d, tick = Some d /\ d ∈ first :: dates.
Proof.
  unfold calculateDateTicks.
  destruct (maxTicks =? 0); [by intros [= <-] ?%elem_of_nil|].
  destruct (maxTicks =? 1).
  { intros [= <-] Ht. apply list_elem_of_singleton in Ht as ->.
    exists first. split; [done|left]. }
  destruct (list.last (first :: dates)) as [last|] eqn:El; cycle 1.
  { by apply last_None in El. }
  apply last_Some_elem_of in El.
  destruct (maxTicks =? 2).
  { intros [= <-] [Ht|Ht]%elem_of_cons.
    - subst tick. exists first. split; [done|left].
    - apply list_elem_of_singleton in Ht as ->. eauto. }
  cbn [head]. destruct (doubleTickInterval _ _ _ _) as [t|]; [|done].
  intros [= <-] (d & -> & Hd)%list_elem_of_fmap.
  eexists. split; [reflexivity|].
  apply (scanDate_subseteq t (first :: dates) ([first], _)) in Hd as [Hd|Hd]; [|done].
  simpl in Hd. apply list_elem_of_singleton in Hd as ->. left.
Qed.

(** The number of ticks while the dates are scanned: each tick after the
    first moves the boundary on by one interval at least. *)
Lemma scanDate_length tickInterval D0 top dates :
  0 < tickInterval ->
  (forall d, startOfDay d <= d) ->
  (forall x y, x <= y -> startOfDay x <= startOfDay y) ->
  (forall x, startOfDay (startOfDay x + tickInterval) = startOfDay x + tickInterval) ->
  Forall (fun d => d <= top) dates ->
  forall st,
    (exists x, snd st = startOfDay x + tickInterval /\ x <= top) ->
    D0 + Z.of_nat (length (fst st)) * tickInterval <= snd st ->
    let st' := foldl (scanDate startOfDay tickInterval) st dates in
    D0 + Z.of_nat (length (fst st')) * tickInterval <= snd st' /\
    snd st' <= top + tickInterval.
Proof.
  intros Ht Hle Hmono Hshift. induction dates as [|d dates IH]; intros Htop st Hx Hinv.
  - simpl. split; [done|]. destruct Hx as (x & -> & Hx). specialize (Hle x). lia.
  - apply Forall_cons in Htop as [Hd Htop]. simpl. apply IH; [done| |].
    + unfold scanDate. destruct (snd st <=? d) eqn:E; [|done]. simpl.
      exists d. split; [done|lia].
    + unfold scanDate. destruct (snd st <=? d) eqn:E; [|done]. simpl.
      destruct Hx as (x & Hx & _).
      assert (snd st <= startOfDay d).
      { rewrite Hx, <- Hshift. apply Hmono. lia. }
      unfold fromDayStart, setAdd. case_bool_decide; [lia|].
      rewrite length_app. simpl. lia.
Qed.

Lemma Sorted_le_last first dates last :
  Sorted Z.le (first :: dates) -> list.last (first :: dates) = Some last ->
  first <= last /\ Forall (fun d => d <= last) (first :: dates).
Proof.
  intros Hs Hl. apply (Sorted_StronglySorted Z.le) in Hs.
  apply last_Some in Hl as [l Hl]. rewrite Hl in Hs |- *.
  assert (Hall : Forall (fun d => d <= last) (l ++ [last])).
  { apply Forall_app. split; [|repeat constructor; lia].
    apply Forall_forall. intros x Hx.
    apply (StronglySorted_app_1_elem_of Z.le _ _ _ _ Hs Hx). left. }
  split; [|done]. rewrite Forall_forall in Hall. apply Hall.
  rewrite <- Hl. left.
Qed.

(** X18: on a date list in ascending order there is at most one tick more
    than [maxTicks], on a host where a day starts at or before each of its
    dates and less than a week before, later dates have later days, and
    whole weeks after the start of a day a day starts. *)
Theorem calculateDateTicks_length fuel first dates maxTicks ticks :
  (forall d, startOfDay d <= d) ->
  (forall d, d - startOfDay d < 7 * (24 * 60 * 60 * 1000)) ->
  (forall x y, x <= y -> startOfDay x <= startOfDay y) ->
  (forall x j, 0 <= j ->
     startOfDay (startOfDay x + j * (7 * (24 * 60 * 60 * 1000)))
     = startOfDay x + j * (7 * (24 * 60 * 60 * 1000))) ->
  Sorted Z.le (first :: dates) ->
  calculateDateTicks startOfDay fuel (first :: dates) maxTicks = Some ticks ->
  Z.of_nat (length ticks) <= maxTicks + 1.
Proof.
  intros Hle Hweek Hmono Hshift Hsorted. unfold calculateDateTicks.
  destruct (maxTicks =? 0) eqn:E0; [intros [= <-]; simpl; lia|].
  destruct (maxTicks =? 1) eqn:E1; [intros [= <-]; simpl; lia|].
  destruct (maxTicks =? 2) eqn:E2; [intros [= <-]; simpl; lia|].
  cbn [head]. destruct (list.last (first :: dates)) as [last|] eqn:El; cycle 1.
  { by apply last_None in El. }
  destruct (Sorted_le_last _ _ _ Hsorted El) as [Hfl Hall].
  destruct (doubleTickInterval _ _ _ _) as [t|] eqn:Et; [|done].
  apply doubleTickInterval_least in Et as (k & -> & Hdiv & _); [|lia].
  set (week := 7 * (24 * 60 * 60 * 1000)) in *.
  set (t := week * 2 ^ Z.of_nat k) in *.
  assert (Hpow : 0 < 2 ^ Z.of_nat k) by (apply Z.pow_pos_nonneg; lia).
  assert (Ht : week <= t) by (unfold t, week; nia).
  intros [= <-]. rewrite length_map.
  destruct (scanDate_length t (startOfDay first) last (first :: dates)
              ltac:(lia) Hle Hmono) with (st := ([first], fromDayStart startOfDay first t))
    as [Hlen Hnext]; [| |exists first; split; [done|lia]|simpl; unfold fromDayStart; lia|].
  { intros x. unfold t. rewrite (Z.mul_comm week). apply Hshift. lia. }
  { done. }
  set (len := Z.of_nat (length _)) in *.
  assert (Hdur : last - first < (maxTicks - 1 + 1) * t).
  { pose proof (Z_div_mod_eq_full (last - first) t).
    pose proof (Z.mod_pos_bound (last - first) t ltac:(lia)). nia. }
  specialize (Hweek first).
  assert ((len - 1) * t < (maxTicks + 1) * t) by lia.
  assert (len - 1 < maxTicks + 1); [|lia].
  apply (Z.mul_lt_mono_pos_r t); lia.
Qed.

End MoreTicks.

(** ** The series of the chart *)

Lemma foldl_setAdd_prefix {A : Type} `{EqDecision A} (l : list A) : forall s,
  s `prefix_of` foldl setAdd s l.
Proof.
  induction l as [|x l IH]; intros s; [done|]. simpl.
  etrans; [|apply IH]. unfold setAdd. case_bool_decide; [done|].
  by apply prefix_app_r.
Qed.

Lemma foldl_setAdd_NoDup_acc {A : Type} `{EqDecision A} (l : list A) : forall s,
  NoDup s -> NoDup (foldl setAdd s l).
Proof.
  induction l as [|x l IH]; intros s Hs; [done|]. simpl. apply IH.
  unfold setAdd. case_bool_decide as Hx; [done|].
  apply NoDup_app. split_and!; [done| |apply NoDup_singleton].
  intros y Hy Hy'. apply list_elem_of_singleton in Hy' as ->. done.
Qed.

(** X19: the series of the chart are the versions of the points, each once,
    in the order of their first point: adding points at the end of the list
    never changes the place of a series that is already there. *)
Theorem allVersionsArr_first_seen points more :
  NoDup (allVersionsArr points) /\
  (forall v, v ∈ allVersionsArr points <-> v ∈ map version points) /\
  allVersionsArr points `prefix_of` allVersionsArr (points ++ more).
Proof.
  split_and!.
  - apply foldl_setAdd_NoDup_acc, NoDup_nil_2.
  - apply elem_of_allVersionsArr.
  - unfold allVersionsArr. rewrite map_app, foldl_app. apply foldl_setAdd_prefix.
Qed.

(** X20: the loop that doubles the interval ends on the first of [t],
    [2 t], [4 t], ... that the duration holds at most [maxInteriorTicks]
    times. *)
Theorem doubleTickInterval_smallest dur m fuel t r :
  0 < t ->
  doubleTickInterval fuel dur m t = Some r ->
  exists k : nat,
    r = t * 2 ^ Z.of_nat k /\ dur / r <= m /\
    forall j : nat, (j < k)%nat -> m < dur / (t * 2 ^ Z.of_nat j).
Proof. apply doubleTickInterval_least. Qed.

(** The theorem at a duration of 40 days and 3 interior ticks: two weeks. *)
Lemma doubleTickInterval_smallest_witness :
  exists k : nat,
    1209600000 = 604800000 * 2 ^ Z.of_nat k /\ 3456000000 / 1209600000 <= 3 /\
    forall j : nat, (j < k)%nat -> 3 < 3456000000 / (604800000 * 2 ^ Z.of_nat j).
Proof.
  apply (doubleTickInterval_smallest 3456000000 3 2 604800000 1209600000);
    [lia|reflexivity].
Defined.

(** ** The start of the day in UTC *)

Lemma utcStartOfDay_le d : utcStartOfDay d <= d.
Proof. unfold utcStartOfDay. pose proof (Z.mod_pos_bound d 86400000). lia. Qed.

Lemma utcStartOfDay_near d : d - utcStartOfDay d < 7 * (24 * 60 * 60 * 1000).
Proof. unfold utcStartOfDay. pose proof (Z.mod_pos_bound d 86400000). lia. Qed.

Lemma utcStartOfDay_eq d : utcStartOfDay d = 86400000 * (d / 86400000).
Proof. unfold utcStartOfDay. pose proof (Z_div_mod_eq_full d 86400000). lia. Qed.

Lemma utcStartOfDay_mono x y : x <= y -> utcStartOfDay x <= utcStartOfDay y.
Proof.
  intros Hxy. rewrite !utcStartOfDay_eq.
  pose proof (Z.div_le_mono x y 86400000). lia.
Qed.

Lemma utcStartOfDay_weeks x j :
  0 <= j ->
  utcStartOfDay (utcStartOfDay x + j * (7 * (24 * 60 * 60 * 1000)))
  = utcStartOfDay x + j * (7 * (24 * 60 * 60 * 1000)).
Proof.
  intros _. rewrite (utcStartOfDay_eq x).
  replace (86400000 * (x / 86400000) + j * (7 * (24 * 60 * 60 * 1000)))
    with ((x / 86400000 + 7 * j) * 86400000) by lia.
  unfold utcStartOfDay. rewrite Z.mod_mul by lia. lia.
Qed.

(** ** Instances of the theorems above *)

(** The zero point added for version a on the second date. *)
Lemma filterTopN_counts_witness :
  let points := [mkPoint 1700000000000 "a" (Num 10);
                 mkPoint 1700000000000 "b" (Num 30);
                 mkPoint 1700086400000 "b" (Num 5)] in
  let p := mkPoint 1700086400000 "a" (Num 0) in
  p ∈ filterTopN utcStartOfDay points 2 30 /\
  p = match firstPoint (date p) (version p) points with
      | Some q => q
      | None => {| date := date p; version := version p; count := Num 0 |}
      end.
Proof.
  assert (Hp : mkPoint 1700086400000 "a" (Num 0)
               ∈ filterTopN utcStartOfDay
                   [mkPoint 1700000000000 "a" (Num 10);
                    mkPoint 1700000000000 "b" (Num 30);
                    mkPoint 1700086400000 "b" (Num 5)] 2 30).
  { vm_compute. do 2 right. left. }
  split; [exact Hp|].
  exact (filterTopN_counts utcStartOfDay _ _ _ _ Hp).
Defined.

(** The version kept out of two has a point in the window. *)
Lemma keptVersions_in_window_witness :
  exists lastPoint p,
    last [mkPoint 1700000000000 "a" (Num 10); mkPoint 1700086400000 "b" (Num 5)]
      = Some lastPoint /\
    p ∈ [mkPoint 1700000000000 "a" (Num 10); mkPoint 1700086400000 "b" (Num 5)] /\
    version p = "a" /\
    earliestAllowableDate utcStartOfDay (date lastPoint) 30 <= date p.
Proof.
  apply (keptVersions_in_window utcStartOfDay
           [mkPoint 1700000000000 "a" (Num 10); mkPoint 1700086400000 "b" (Num 5)]
           1 30 "a").
  apply (bool_decide_unpack _). vm_compute. exact I.
Defined.

(** Two points a day apart, one version kept, a window of 30 days. *)
Lemma filterTopN_nonempty_witness :
  filterTopN utcStartOfDay
    [mkPoint 1700000000000 "a" (Num 10); mkPoint 1700086400000 "b" (Num 5)] 1 30 <> [].
Proof.
  apply (filterTopN_nonempty utcStartOfDay _ 1 30 (mkPoint 1700086400000 "b" (Num 5)));
    [reflexivity|vm_compute; discriminate|lia|lia].
Defined.

(** Version b comes first in the input, so it is the first series. *)
Lemma allVersionsArr_filterTopN_witness :
  let points := [mkPoint 1700000000000 "b" (Num 10);
                 mkPoint 1700000000000 "a" (Num 30);
                 mkPoint 1700086400000 "a" (Num 5)] in
  allVersionsArr (filterTopN utcStartOfDay points 2 30) = ["b"; "a"].
Proof.
  apply (allVersionsArr_filterTopN utcStartOfDay
           [mkPoint 1700000000000 "b" (Num 10);
            mkPoint 1700000000000 "a" (Num 30);
            mkPoint 1700086400000 "a" (Num 5)] 2 30).
  vm_compute. discriminate.
Defined.

(** The row of the second date holds the zero added for version a. *)
Lemma data_filterTopN_complete_witness :
  let points := [mkPoint 1700000000000 "a" (Num 10);
                 mkPoint 1700000000000 "b" (Num 30);
                 mkPoint 1700086400000 "b" (Num 5)] in
  let row := mkRow 1700086400000 (<["b" := Num 5]> {["a" := Num 0]}) in
  exists p,
    p ∈ filterTopN utcStartOfDay points 2 30 /\ date p = rowDate row /\
    version p = "a" /\ versionCounts row !! "a" = Some (count p).
Proof.
  apply (data_filterTopN_complete utcStartOfDay
           [mkPoint 1700000000000 "a" (Num 10);
            mkPoint 1700000000000 "b" (Num 30);
            mkPoint 1700086400000 "b" (Num 5)] 2 30
           (mkRow 1700086400000 (<["b" := Num 5]> {["a" := Num 0]})) "a").
  - vm_compute. right. left.
  - apply (bool_decide_unpack _). vm_compute. exact I.
  - discriminate.
Defined.

(** Version a totals 15 and is dropped, version b totals 30 and is kept. *)
Lemma topVersions_highest_witness :
  let points := [mkPoint 1700000000000 "a" (Num 10);
                 mkPoint 1700000000000 "b" (Num 30);
                 mkPoint 1700086400000 "a" (Num 5)] in
  countLe (mkVersionCount "a" (Num (10 + 5))) (mkVersionCount "b" (Num 30)).
Proof.
  apply (topVersions_highest 1697414400000
           [mkPoint 1700000000000 "a" (Num 10);
            mkPoint 1700000000000 "b" (Num 30);
            mkPoint 1700086400000 "a" (Num 5)] 1).
  - repeat constructor.
  - vm_compute. left.
  - vm_compute. right. left.
  - apply (bool_decide_unpack _). vm_compute. exact I.
  - apply (bool_decide_unpack _). vm_compute. exact I.
Defined.

(** The point before the boundary is not part of the total. *)
Lemma versionsInWindow_total_witness :
  let points := [mkPoint 1700000000000 "a" (Num 10);
                 mkPoint 1600000000000 "a" (Num 7);
                 mkPoint 1700086400000 "a" (Num 5)] in
  exists x xs,
    windowCounts 1697414400000 "a" points = x :: xs /\ Num (10 + 5) = foldl numAdd x xs.
Proof.
  apply (versionsInWindow_total 1697414400000
           [mkPoint 1700000000000 "a" (Num 10);
            mkPoint 1600000000000 "a" (Num 7);
            mkPoint 1700086400000 "a" (Num 5)]
           (mkVersionCount "a" (Num (10 + 5)))).
  vm_compute. left.
Defined.

(** Two versions in the window and [n = 5]. *)
Lemma keptVersions_all_witness :
  let points := [mkPoint 1700000000000 "a" (Num 10); mkPoint 1700086400000 "b" (Num 5)] in
  "a" ∈ keptVersions utcStartOfDay points 5 30 <->
  exists p, p ∈ points /\ version p = "a" /\
            earliestAllowableDate utcStartOfDay 1700086400000 30 <= date p.
Proof.
  apply (keptVersions_all utcStartOfDay
           [mkPoint 1700000000000 "a" (Num 10); mkPoint 1700086400000 "b" (Num 5)]
           5 30 (mkPoint 1700086400000 "b" (Num 5)) "a" eq_refl).
  vm_compute. discriminate.
Defined.

(** Three dates over 40 days and [maxTicks = 4]. *)
Lemma calculateDateTicks_terminates_witness :
  exists fuel0 ticks, forall fuel,
    (fuel0 <= fuel)%nat ->
    calculateDateTicks utcStartOfDay fuel [0; 86400000; 40 * 86400000] 4 = Some ticks.
Proof. apply (calculateDateTicks_terminates utcStartOfDay). lia. Defined.

(** Two dates a day apart and [maxTicks = -1]. *)
Lemma calculateDateTicks_negative_diverges_witness :
  calculateDateTicks utcStartOfDay 1000 [0; 86400000] (-1) = None.
Proof.
  apply (calculateDateTicks_negative_diverges utcStartOfDay 1000 _ (-1) 0 86400000);
    [lia|reflexivity|reflexivity|lia].
Defined.

(** The second tick of three dates over 40 days is the last date. *)
Lemma calculateDateTicks_subset_witness :
  exists d, Some 3456000000 = Some d /\ d ∈ [0; 86400000; 3456000000].
Proof.
  apply (calculateDateTicks_subset utcStartOfDay 1 0 [86400000; 3456000000] 6
           [Some 0; Some 3456000000]).
  - vm_compute. reflexivity.
  - right. left.
Defined.

(** Four ticks for [maxTicks = 3], on a host in UTC. *)
Lemma calculateDateTicks_length_witness :
  Z.of_nat (length [Some 82800000; Some 604800000; Some 1209600000; Some 1814400000])
  <= 3 + 1.
Proof.
  apply (calculateDateTicks_length utcStartOfDay 1 82800000
           [604800000; 1209600000; 1814400000] 3).
  - apply utcStartOfDay_le.
  - apply utcStartOfDay_near.
  - apply utcStartOfDay_mono.
  - apply utcStartOfDay_weeks.
  - repeat constructor; lia.
  - vm_compute. reflexivity.
Defined.

(** The first of three dates over 40 days is a tick. *)
Lemma calculateDateTicks_first_witness :
  Some 0 ∈ [Some 0; Some 3456000000].
Proof.
  apply (calculateDateTicks_first utcStartOfDay 1 0 [86400000; 3456000000] 6).
  - lia.
  - vm_compute. reflexivity.
Defined.

(** The two ticks of three dates over 40 days, on a host in UTC. *)
Lemma calculateDateTicks_increasing_witness :
  exists ts, [Some 0; Some 3456000000] = map Some ts /\ StronglySorted Z.lt ts.
Proof.
  apply (calculateDateTicks_increasing utcStartOfDay 1 0 [86400000; 3456000000] 6).
  - apply utcStartOfDay_near.
  - lia.
  - vm_compute. reflexivity.
Defined.
